(** * MicrojetDetection: the analytical core of [scripts/frame.py]

    A shallow embedding of class [Frame] of
    [MicrojetDetection (Python)/scripts/frame.py] and the properties of its
    measurement and speed-estimation methods, followed by the callers of
    [Frame] in [scripts/video.py] (preprocessing, the saved worksheet,
    playback) and the plotted window of [scripts/main.py].

    Number model.  Python [int] is [Z].  NumPy [int32] (the coordinates of
    a contour) is [Z] with the wrap-around of its arithmetic written out
    ([Np.int32]) where the source computes on such values.  Python [float]
    and NumPy [float64] are modelled as the real numbers [R]: every
    arithmetic step of the source is kept, with its exact mathematical
    result (no rounding, no overflow, no infinities or NaN).  Operations
    that raise in Python raise here: results live in the error monad
    [result]. *)

From Stdlib Require Import ZArith List Bool Arith Lia.
From Stdlib Require Import Reals Lra.
From Stdlib Require String.
From Stdlib Require Import Sorting.Permutation Sorting.Sorted.
Import ListNotations.

Set Implicit Arguments.

(* ================================================================== *)
(** * Exceptions *)

Inductive PyError : Type :=
| ZeroDivisionError
| ValueError
| IndexError
| AttributeError
| CvError.

Inductive result (A : Type) : Type :=
| Ok (a : A)
| Raise (e : PyError).

Arguments Ok {A} a.
Arguments Raise {A} e.

Definition bind {A B : Type} (m : result A) (k : A -> result B) : result B :=
  match m with
  | Ok a => k a
  | Raise e => Raise e
  end.

Notation "x <- m ;; k" := (bind m (fun x => k))
  (at level 61, m at next level, right associativity).
Notation "' p <- m ;; k" := (bind m (fun p => k))
  (at level 61, p pattern, m at next level, right associativity).

(** A [for] loop whose body may raise: the first exception ends the loop. *)
Fixpoint for_each {St X : Type} (body : St -> X -> result St) (xs : list X)
  (s : St) : result St :=
  match xs with
  | [] => Ok s
  | x :: xs' => s' <- body s x ;; for_each body xs' s'
  end.

(* ================================================================== *)
(** * Python and NumPy primitives used by [frame.py] *)

Module Py.

Open Scope R_scope.

(** [int(x)] on a float: truncation toward zero. *)
Definition int (x : R) : Z :=
  if Rle_dec 0 x then Int_part x else (- Int_part (- x))%Z.

(** [a / b] on Python numbers: true division, [ZeroDivisionError] at zero. *)
Definition truediv (a b : R) : result R :=
  if Req_dec_T b 0 then Raise ZeroDivisionError else Ok (a / b).

(** [len(xs)] as a float operand. *)
Definition len {A : Type} (xs : list A) : R := INR (length xs).

(** [xs[i]] on a list. *)
Definition getitem {A : Type} (xs : list A) (i : nat) : result A :=
  match nth_error xs i with
  | Some x => Ok x
  | None => Raise IndexError
  end.

(** [zip(xs, ys)] stops at the shorter argument. *)
Definition zip {A B : Type} (xs : list A) (ys : list B) : list (A * B) :=
  combine xs ys.

End Py.

Module Np.

Open Scope R_scope.

Definition sumZ (xs : list Z) : Z := fold_right Z.add 0%Z xs.

Definition sumR (xs : list R) : R := fold_right Rplus 0 xs.

(** [np.mean(xs)] of an integer array.  On an empty array NumPy returns
    NaN, and the [int(...)] the source applies to it raises [ValueError];
    the model raises at the mean. *)
Definition mean (xs : list Z) : result R :=
  match xs with
  | [] => Raise ValueError
  | _ => Ok (IZR (sumZ xs) / Py.len xs)
  end.

(** [np.sort(xs)]: the ascending arrangement of [xs], computed here by
    insertion. *)
Fixpoint insert (x : Z) (xs : list Z) : list Z :=
  match xs with
  | [] => [x]
  | y :: ys => if (x <=? y)%Z then x :: xs else y :: insert x ys
  end.

Definition sort (xs : list Z) : list Z := fold_right insert [] xs.

(** [np.amax(col)], [np.amin(col)] of a non-empty column. *)
Definition amax (x : Z) (xs : list Z) : Z := fold_left Z.max xs x.
Definition amin (x : Z) (xs : list Z) : Z := fold_left Z.min xs x.

(** The value an [np.int32] operation keeps of the exact result [z]:
    [z] reduced modulo [2^32] into [[-2^31, 2^31)]. *)
Definition int32 (z : Z) : Z :=
  ((z + 2147483648) mod 4294967296 - 2147483648)%Z.

(** [np.linalg.norm(v)] of a 2-vector. *)
Definition norm2 (v : R * R) : R := sqrt (fst v * fst v + snd v * snd v).

(** [np.argmin(ds)]: the first index holding the least value. *)
Fixpoint argmin_from (best_i : nat) (best : R) (i : nat) (ds : list R) : nat :=
  match ds with
  | [] => best_i
  | d :: ds' =>
      if Rlt_dec d best then argmin_from i d (S i) ds'
      else argmin_from best_i best (S i) ds'
  end.

Definition argmin (ds : list R) : result nat :=
  match ds with
  | [] => Raise ValueError
  | d :: ds' => Ok (argmin_from O d 1%nat ds')
  end.

End Np.

(* ================================================================== *)
(** * OpenCV

    [frame.py] calls OpenCV for image filtering, contour discovery, contour
    measurements and drawing.  These are not code of the repository: they
    are an interface, and the development holds for every implementation
    of it.  A contour is the [(x, y)] point sequence [np.squeeze(cnt)]
    reads from it. *)

Definition point : Type := (Z * Z)%type.
Definition contour : Type := list point.

(** The entries of the dictionary [cv.moments] returns that [frame.py] reads. *)
Record moments_t : Type := { m00 : R; m10 : R; m01 : R }.

Inductive threshold_type : Type := THRESH_BINARY_INV.
Inductive color_code : Type := COLOR_RGB2GRAY.

Class OpenCV : Type := {
  Image : Type;
  cvtColor : Image -> color_code -> result Image;
  erode : Image -> nat * nat -> nat -> Image;
  dilate : Image -> nat * nat -> nat -> Image;
  blur : Image -> nat * nat -> Image;
  threshold : Image -> Z -> Z -> threshold_type -> Image;
  findContours : Image -> list contour;
  moments : contour -> moments_t;
  contourArea : contour -> R;
  arcLength : contour -> R;
  circle : Image -> point -> Z -> Image;
  rectangle : Image -> point -> point -> Image
}.

(** A test double: images are the list of shapes drawn so far, filters
    leave them alone, contour discovery finds [found], and every contour
    measures [area] and [perimeter], with its centroid at the origin. *)
Inductive overlay : Type :=
| DrawCircle (center : point) (radius : Z)
| DrawRectangle (corner1 corner2 : point).

Definition stub_cv (found : list contour) (area perimeter : R) : OpenCV := {|
  Image := list overlay;
  cvtColor := fun img _ => Ok img;
  erode := fun img _ _ => img;
  dilate := fun img _ _ => img;
  blur := fun img _ => img;
  threshold := fun img _ _ _ => img;
  findContours := fun _ => found;
  moments := fun _ => {| m00 := area; m10 := 0; m01 := 0 |};
  contourArea := fun _ => area;
  arcLength := fun _ => perimeter;
  circle := fun img c r => img ++ [DrawCircle c r];
  rectangle := fun img a b => img ++ [DrawRectangle a b]
|}.


(** Two unit squares (area 1, perimeter 4), and a thin strip 1 wide and
    20 tall (area 20, perimeter 42) with one more point on its left edge. *)
Definition two_squares : list contour :=
  [[(0, 0); (1, 0); (1, 1); (0, 1)]%Z; [(5, 5); (6, 5); (6, 6); (5, 6)]%Z].

Definition thin_strip : contour :=
  [(0, 0); (1, 0); (1, 20); (0, 20); (0, 10)]%Z.

(* ================================================================== *)
(** * Class [Frame]: the correspondence and speed estimator *)

Module Frame.

Open Scope R_scope.

(** The class attributes of [Frame], shared by all its instances and
    assigned from outside ([Frame.frame_rate = ...] in [main.py]). *)
Record class_attrs : Type := {
  outline : bool;
  cls_threshold : Z;
  frame_rate : Z
}.

(** The attributes at class definition: [outline = True], [threshold = 0],
    [frame_rate = 0]. *)
Definition class_default : class_attrs :=
  {| outline := true; cls_threshold := 0; frame_rate := 0 |}.

(** The class after [Frame.frame_rate = n]. *)
Definition fps (n : Z) : class_attrs :=
  {| outline := true; cls_threshold := 0; frame_rate := n |}.

(** One entry of a droplet list: [[center_y, radius]]. *)
Definition droplet : Type := (Z * R)%type.

(** The row [np.array(pair) - np.array(target_pair)] of the difference
    array, and its norm. *)
Definition row_diff (pair target_pair : droplet) : R * R :=
  (IZR (fst pair) - IZR (fst target_pair), snd pair - snd target_pair).

Definition distance_to (target_pair pair : droplet) : R :=
  Np.norm2 (row_diff pair target_pair).

(** The local variables of [calculate_droplet_speed] that live across the
    iterations of its first loop.  [y_intercept_difference] is unbound
    ([None]) until the body has run once. *)
Record speed_locals : Type := {
  closest_pairs : list (Z * Z);
  y_intercept_difference : option Z
}.

Definition speed_locals_init : speed_locals :=
  {| closest_pairs := []; y_intercept_difference := None |}.

(** [[pair for pair in reference_pairs if pair[0] > target_pair[0]]] *)
Definition filter_below (reference_pairs : list droplet) (target_pair : droplet)
  : list droplet :=
  filter (fun pair => (fst target_pair <? fst pair)%Z) reference_pairs.

(** The [if len(filtered_pairs_array) != 0] block: the new [closest_pairs]. *)
Definition record_closest (reference_pairs : list droplet)
  (cps : list (Z * Z)) (target_pair : droplet) : result (list (Z * Z)) :=
  let filtered_pairs := filter_below reference_pairs target_pair in
  if (length filtered_pairs =? 0)%nat then Ok cps
  else
    let distances := map (distance_to target_pair) filtered_pairs in
    closest_index <- Np.argmin distances ;;
    closest_pair <- Py.getitem filtered_pairs closest_index ;;
    Ok (cps ++ [(fst target_pair, fst closest_pair)]).

(** Body of [for target_pair, reference_pair in zip(...)]. *)
Definition speed_body (reference_pairs : list droplet) (st : speed_locals)
  (tr : droplet * droplet) : result speed_locals :=
  let '(target_pair, reference_pair) := tr in
  let yid := (fst target_pair - fst reference_pair)%Z in
  cps <- record_closest reference_pairs (closest_pairs st) target_pair ;;
  Ok {| closest_pairs := cps; y_intercept_difference := Some yid |}.

(** The same body without the assignment to [y_intercept_difference]. *)
Definition speed_body_no_yid (reference_pairs : list droplet)
  (st : speed_locals) (tr : droplet * droplet) : result speed_locals :=
  let '(target_pair, _) := tr in
  cps <- record_closest reference_pairs (closest_pairs st) target_pair ;;
  Ok {| closest_pairs := cps;
        y_intercept_difference := y_intercept_difference st |}.

(** [for pair in closest_pairs: distance += pair[1] - pair[0]], on the
    integer accumulator [distance]. *)
Definition add_advances (distance : Z) (cps : list (Z * Z)) : Z :=
  fold_left (fun d pair => (d + (snd pair - fst pair))%Z) cps distance.

(** The [if len(closest_pairs) > 0] block: the value of [distance] after it. *)
Definition mean_distance (cps : list (Z * Z)) : R :=
  if (0 <? length cps)%nat
  then IZR (add_advances 0 cps) / Py.len cps
  else IZR 0.

(** [conversion = 0.000038] *)
Definition conversion : R := 38 / 1000000.

(** The last two statements: [(distance * conversion) / (1 / Frame.frame_rate)]. *)
Definition to_speed (cls : class_attrs) (distance : R) : result R :=
  period <- Py.truediv 1 (IZR (frame_rate cls)) ;;
  Py.truediv (distance * conversion) period.

(** The first loop, from the initial bindings, with [body] as its body. *)
Definition speed_loop (body : list droplet -> speed_locals ->
                              droplet * droplet -> result speed_locals)
  (lists prev_lists : list droplet) : result speed_locals :=
  let target_pairs := lists in
  let reference_pairs := prev_lists in
  for_each (body reference_pairs) (Py.zip target_pairs reference_pairs)
    speed_locals_init.

(** [Frame.calculate_droplet_speed(lists, prev_lists)], reading the class
    attribute [Frame.frame_rate]. *)
Definition calculate_droplet_speed (cls : class_attrs)
  (lists prev_lists : list droplet) : result R :=
  st <- speed_loop speed_body lists prev_lists ;;
  to_speed cls (mean_distance (closest_pairs st)).

(** The variant of the estimator that never computes
    [y_intercept_difference]. *)
Definition calculate_droplet_speed_no_yid (cls : class_attrs)
  (lists prev_lists : list droplet) : result R :=
  st <- speed_loop speed_body_no_yid lists prev_lists ;;
  to_speed cls (mean_distance (closest_pairs st)).

(* ------------------------------------------------------------------ *)
(** ** The frame pass *)

Section WithOpenCV.

Context {cv : OpenCV}.

(** The instance attributes [__init__] sets and the methods use.  (The
    four attributes [droplet_speed], [droplet_radius], [jet_length] and
    [jet_width] are set to [None] there and never touched again.) *)
Record self_attrs : Type := {
  image : Image;
  processed_image : option Image;
  cimg : option Image
}.

Definition set_image (self : self_attrs) (img : Image) : self_attrs :=
  {| image := img; processed_image := processed_image self; cimg := cimg self |}.

(** [Frame.process_image(self, threshold)]: the mask it returns and the
    object it leaves behind ([self.image] is rebound to the grayscale
    image). *)
Definition process_image (cls : class_attrs) (self : self_attrs)
  (threshold_arg : Z) : result (Image * self_attrs) :=
  let ksize := (5%nat, 5%nat) in
  let max_val := 255%Z in
  let kernel := (5%nat, 5%nat) in
  gray <- cvtColor (image self) COLOR_RGB2GRAY ;;
  let self := set_image self gray in
  let img_erode := erode (image self) kernel 1 in
  let img_dilate := dilate img_erode kernel 1 in
  let img_blur := blur img_dilate ksize in
  let thresh1 := threshold img_blur threshold_arg max_val THRESH_BINARY_INV in
  Ok (thresh1, self).

(** [Frame.__init__(self, img, threshold)]. *)
Definition init (cls : class_attrs) (img : Image) (threshold_arg : Z)
  : result self_attrs :=
  let self := {| image := img; processed_image := None; cimg := None |} in
  '(mask, self) <- process_image cls self threshold_arg ;;
  Ok {| image := image self; processed_image := Some mask; cimg := Some img |}.


(** [Frame.detect_roundness(self, moment, cnt)]. *)
Definition detect_roundness (moment : moments_t) (cnt : contour)
  : result (R * R * Z * Z) :=
  qx <- Py.truediv (m10 moment) (m00 moment) ;;
  let center_x := Py.int qx in
  qy <- Py.truediv (m01 moment) (m00 moment) ;;
  let center_y := Py.int qy in
  let area := contourArea cnt in
  let perimeter := arcLength cnt in
  roundness <- Py.truediv (4 * PI * area) (perimeter ^ 2) ;;
  Ok (roundness, area, center_x, center_y).

(** [Frame.droplet_rad(self, area, center_x, center_y, circles_num,
    radius_sum)], with the canvas [self.cimg] passed through. *)
Definition droplet_rad (canvas : Image) (area : R) (center_x center_y : Z)
  (circles_num : Z) (radius_sum : R) : Image * (Z * R * R) :=
  let radius := sqrt (area / PI) in
  let circles_num := (circles_num + 1)%Z in
  let radius_sum := radius_sum + radius in
  let canvas := circle canvas (center_x, center_y) (Py.int radius) in
  (canvas, (circles_num, radius_sum, radius)).

(** [Frame.jet_width_length(self, cnt)].  With no point [np.amax] raises
    [ValueError]; with one point [np.squeeze] leaves a 1-D array and
    [max[1]] raises [IndexError].  [max_y] and [min_y] are [np.int32]
    values: their difference wraps.  The two column means are Python
    integers after [int(...)]: their difference does not. *)
Definition jet_width_length (canvas : Image) (cnt : contour)
  : result (Image * (Z * Z)) :=
  match cnt with
  | [] => Raise ValueError
  | [_] => Raise IndexError
  | p :: rest =>
      let max_y := Np.amax (snd p) (map snd rest) in
      let min_y := Np.amin (snd p) (map snd rest) in
      let x_vals := map fst cnt in
      let x_vals := Np.sort x_vals in
      let seperator := Z.to_nat (Py.int (Py.len x_vals / 2)) in
      let first_half := firstn seperator x_vals in
      let second_half := skipn seperator x_vals in
      mean_left <- Np.mean first_half ;;
      let x_val_left := Py.int mean_left in
      mean_right <- Np.mean second_half ;;
      let x_val_right := Py.int mean_right in
      let canvas := rectangle canvas (x_val_left, min_y) (x_val_right, max_y) in
      let jet_width := (x_val_right - x_val_left)%Z in
      let jet_length := Np.int32 (max_y - min_y) in
      Ok (canvas, (jet_width, jet_length))
  end.

(** The local variables of [detect_droplets_and_jet] that live across the
    iterations of its loop, and the canvas [self.cimg] the loop draws on. *)
Record pass_locals : Type := {
  circles_num : Z;
  radius_sum : R;
  jet_width : Z;
  jet_length : Z;
  droplet_list : list droplet;
  canvas : Image
}.

Definition pass_init (img : Image) : pass_locals :=
  {| circles_num := 0; radius_sum := 0; jet_width := 0; jet_length := 0;
     droplet_list := []; canvas := img |}.

(** The [if roundness >= 0.5] statement ([0.5] written [5 / 10]). *)
Definition droplet_branch (st : pass_locals) (roundness area : R)
  (center_x center_y : Z) : pass_locals :=
  if Rge_dec roundness (5 / 10) then
    let '(canvas', (circles_num', radius_sum', radius)) :=
      droplet_rad (canvas st) area center_x center_y
        (circles_num st) (radius_sum st) in
    {| circles_num := circles_num'; radius_sum := radius_sum';
       jet_width := jet_width st; jet_length := jet_length st;
       droplet_list := droplet_list st ++ [(center_y, radius)];
       canvas := canvas' |}
  else st.

(** The [if roundness <= 0.3] statement ([0.3] written [3 / 10]). *)
Definition jet_branch (st : pass_locals) (roundness : R) (cnt : contour)
  : result pass_locals :=
  if Rle_dec roundness (3 / 10) then
    '(canvas', (jet_width', jet_length')) <- jet_width_length (canvas st) cnt ;;
    Ok {| circles_num := circles_num st; radius_sum := radius_sum st;
          jet_width := jet_width'; jet_length := jet_length';
          droplet_list := droplet_list st; canvas := canvas' |}
  else Ok st.

(** Body of [for cnt in contours]. *)
Definition pass_body (st : pass_locals) (cnt : contour) : result pass_locals :=
  let moment := moments cnt in
  if Req_dec_T (m00 moment) 0 then Ok st
  else
    '(roundness, area, center_x, center_y) <- detect_roundness moment cnt ;;
    let st := droplet_branch st roundness area center_x center_y in
    jet_branch st roundness cnt.

(** What [detect_droplets_and_jet] returns:
    [self.cimg, droplet_list, radius_avg, jet_width, jet_length]. *)
Record pass_output : Type := {
  out_cimg : Image;
  out_droplet_list : list droplet;
  out_radius_avg : R;
  out_jet_width : Z;
  out_jet_length : Z
}.

(** The statements after the loop. *)
Definition pass_finish (st : pass_locals) : pass_output :=
  let radius_avg :=
    if (0 <? circles_num st)%Z
    then radius_sum st / IZR (circles_num st)
    else 0 in
  {| out_cimg := canvas st; out_droplet_list := droplet_list st;
     out_radius_avg := radius_avg;
     out_jet_width := jet_width st; out_jet_length := jet_length st |}.

(** The loop of [detect_droplets_and_jet] over the contours found, drawing
    on [img]. *)
Definition detect_in_contours (img : Image) (contours : list contour)
  : result pass_output :=
  st <- for_each pass_body contours (pass_init img) ;;
  Ok (pass_finish st).

(** [Frame.detect_droplets_and_jet(self)].  On a constructed object both
    attributes are set; reading an unset attribute raises. *)
Definition detect_droplets_and_jet (self : self_attrs) : result pass_output :=
  match processed_image self, cimg self with
  | Some mask, Some img => detect_in_contours img (findContours mask)
  | _, _ => Raise AttributeError
  end.

End WithOpenCV.

End Frame.

(* ================================================================== *)
(** * The specification's reading of the components

    These definitions follow the wording of the specification, not the
    code; the theorems below compare the two. *)

Module Spec.

Import Frame.

Open Scope R_scope.

Definition center_row (d : droplet) : Z := fst d.
Definition radius (d : droplet) : R := snd d.

(** Euclidean distance between the [(center_row, radius)] vectors. *)
Definition euclid (a b : droplet) : R :=
  sqrt (Rsqr (IZR (center_row a) - IZR (center_row b))
        + Rsqr (radius a - radius b)).

(** Candidates for a target: the droplets of the previous list whose
    [center_row] is strictly greater than the target's. *)
Definition is_candidate (previous : list droplet) (target c : droplet) : Prop :=
  In c previous /\ (center_row target < center_row c)%Z.

Definition closest_candidate (previous : list droplet) (target c : droplet)
  : Prop :=
  is_candidate previous target c /\
  forall c', is_candidate previous target c' -> euclid c target <= euclid c' target.

(** The pairs recorded for a sequence of positional pairs
    [(target, reference)], in processing order. *)
Inductive recorded (previous : list droplet)
  : list (droplet * droplet) -> list (Z * Z) -> Prop :=
| recorded_done : recorded previous [] []
| recorded_none target reference rest ps :
    (forall c, ~ is_candidate previous target c) ->
    recorded previous rest ps ->
    recorded previous ((target, reference) :: rest) ps
| recorded_pair target reference rest ps c :
    closest_candidate previous target c ->
    recorded previous rest ps ->
    recorded previous ((target, reference) :: rest)
      ((center_row target, center_row c) :: ps).

(** Mean of [closest_candidate.center_row - target.center_row] over the
    recorded pairs; [0] when none was recorded. *)
Definition mean_row_advance (ps : list (Z * Z)) : R :=
  match ps with
  | [] => 0
  | _ => Np.sumR (map (fun p => IZR (snd p) - IZR (fst p)) ps) / INR (length ps)
  end.

(** Truncation of a list to its first [n] entries. *)
Definition truncate {A : Type} (n : nat) (xs : list A) : list A := firstn n xs.

(** The three categories of a non-degenerate shape. *)
Inductive category : Type := DROPLET | JET | NONE.

Definition classify (roundness : R) : category :=
  if Rge_dec roundness (5 / 10) then DROPLET
  else if Rle_dec roundness (3 / 10) then JET
  else NONE.

Section Shapes.

Context {cv : OpenCV}.

(** [roundness = 4 pi area / perimeter^2] *)
Definition roundness (cnt : contour) : R :=
  4 * PI * contourArea cnt / (arcLength cnt) ^ 2.

(** [radius = sqrt(area / pi)] *)
Definition radius_of (cnt : contour) : R := sqrt (contourArea cnt / PI).

(** Centroid from the first-order moments, truncated to integers. *)
Definition center_col_of (cnt : contour) : Z :=
  Py.int (m10 (moments cnt) / m00 (moments cnt)).
Definition center_row_of (cnt : contour) : Z :=
  Py.int (m01 (moments cnt) / m00 (moments cnt)).

Definition non_degenerate (cnt : contour) : Prop := m00 (moments cnt) <> 0.

(** A droplet-classified shape: non-degenerate, with roundness at least 0.5. *)
Definition is_droplet (cnt : contour) : bool :=
  if Req_dec_T (m00 (moments cnt)) 0 then false
  else if Rge_dec (roundness cnt) (5 / 10) then true else false.

(** What contour discovery guarantees of a contour that encloses area:
    it has a perimeter and at least two points. *)
Definition well_measured (cnt : contour) : Prop :=
  non_degenerate cnt -> arcLength cnt <> 0 /\ (2 <= length cnt)%nat.

End Shapes.

(** Arithmetic mean of a sequence of integers, of reals. *)
Definition meanZ (xs : list Z) : R := IZR (Np.sumZ xs) / INR (length xs).

Definition meanR (xs : list R) : R :=
  match xs with
  | [] => 0
  | _ => Np.sumR xs / INR (length xs)
  end.

Definition is_max (m : Z) (xs : list Z) : Prop :=
  In m xs /\ forall x, In x xs -> (x <= m)%Z.

Definition is_min (m : Z) (xs : list Z) : Prop :=
  In m xs /\ forall x, In x xs -> (m <= x)%Z.

End Spec.

(* ================================================================== *)
(** * More of Python's lists *)

Module PyList.

(** [xs[i]] for an integer [i]: negative indices count from the end. *)
Definition getitem {A : Type} (xs : list A) (i : Z) : result A :=
  let n := Z.of_nat (length xs) in
  if (0 <=? i)%Z then Py.getitem xs (Z.to_nat i)
  else if (- n <=? i)%Z then Py.getitem xs (Z.to_nat (n + i))
  else Raise IndexError.

(** [xs.pop(0)]: the first element and the list it leaves. *)
Definition pop0 {A : Type} (xs : list A) : result (A * list A) :=
  match xs with
  | [] => Raise IndexError
  | x :: rest => Ok (x, rest)
  end.

End PyList.

(* ================================================================== *)
(** * The plotted data

    [graphs.py] is not among the sources; [main.py] and [video.py] use
    five class attributes of its class [Graphs] as lists of the integers
    the signals carry. *)

Module Graphs.

Record data : Type := {
  frameData : list Z;
  radiusData : list Z;
  lengthData : list Z;
  widthData : list Z;
  speedData : list Z
}.

Definition cleared : data :=
  {| frameData := []; radiusData := []; lengthData := [];
     widthData := []; speedData := [] |}.

End Graphs.

(* ================================================================== *)
(** * Class [Video] of [video.py] *)

Module Video.

Import Frame.
Import String.StringSyntax.

Local Open Scope string_scope.
Open Scope R_scope.

(** A cell of the worksheet [save_data] fills: a literal, or [str(...)] of
    an integer or of a number.  The worksheet is the sequence of the
    [ws.write(row, col, text)] calls that returned; a later write to a cell
    replaces an earlier one ([cell_overwrite_ok=True]). *)
Inductive cell : Type :=
| label (s : String.string)
| str_int (n : Z)
| str_num (x : R).

Definition worksheet : Type := list (Z * Z * cell).

(** [ws.write(row, col, text)] of xlwt.  An [.xls] sheet has the rows 0 to
    65535: for any other row index xlwt raises [ValueError]. *)
Definition ws_write (ws : worksheet) (row col : Z) (text : cell)
  : result worksheet :=
  if ((0 <=? row) && (row <=? 65535))%Z
  then Ok (ws ++ [(row, col, text)])
  else Raise ValueError.

Definition cell_at (ws : worksheet) (row col : Z) : option cell :=
  fold_left
    (fun found w =>
       let '(r, c, text) := w in
       if ((r =? row) && (c =? col))%Z then Some text else found)
    ws None.

Section WithOpenCV.

Context {cv : OpenCV}.

(** One element of [self.information_array]:
    [[f, cimg, radius, droplet_speed, jet_width, jet_length,
      self.frame_number]]. *)
Record info : Type := {
  info_f : Image;
  info_cimg : Image;
  info_radius : R;
  info_droplet_speed : R;
  info_jet_width : Z;
  info_jet_length : Z;
  info_frame_number : Z
}.

(** The signals a [Video] emits, in emission order.  The status text
    ["Processing i/n frames"] is kept as its two numbers; an image signal
    carries the image it was converted from. *)
Inductive signal : Type :=
| video_status (i n : Z)
| info_signal (radius length width speed : Z)
| graph_signal (radius length width speed frame : Z)
| slider_signal (frame : Z)
| image_signal (img : Image).

(** The attributes of a [Video] object, the signals emitted so far and
    the worksheet last saved. *)
Record video : Type := {
  frame_number : Z;
  speed : Z;
  max_frames : Z;
  is_paused : bool;
  information_array : list info;
  self_threshold : Z;
  emitted : list signal;
  saved : option worksheet
}.

(** [Video.__init__] *)
Definition new : video :=
  {| frame_number := 0; speed := 0; max_frames := -1; is_paused := false;
     information_array := []; self_threshold := 0; emitted := [];
     saved := None |}.

Definition set_frame_number (self : video) (n : Z) : video :=
  {| frame_number := n; speed := speed self; max_frames := max_frames self;
     is_paused := is_paused self;
     information_array := information_array self;
     self_threshold := self_threshold self; emitted := emitted self;
     saved := saved self |}.

Definition set_max_frames (self : video) (n : Z) : video :=
  {| frame_number := frame_number self; speed := speed self; max_frames := n;
     is_paused := is_paused self;
     information_array := information_array self;
     self_threshold := self_threshold self; emitted := emitted self;
     saved := saved self |}.

Definition set_is_paused (self : video) (b : bool) : video :=
  {| frame_number := frame_number self; speed := speed self;
     max_frames := max_frames self; is_paused := b;
     information_array := information_array self;
     self_threshold := self_threshold self; emitted := emitted self;
     saved := saved self |}.

Definition append_info (self : video) (e : info) : video :=
  {| frame_number := frame_number self; speed := speed self;
     max_frames := max_frames self; is_paused := is_paused self;
     information_array := information_array self ++ [e];
     self_threshold := self_threshold self; emitted := emitted self;
     saved := saved self |}.

Definition emit (self : video) (s : signal) : video :=
  {| frame_number := frame_number self; speed := speed self;
     max_frames := max_frames self; is_paused := is_paused self;
     information_array := information_array self;
     self_threshold := self_threshold self; emitted := emitted self ++ [s];
     saved := saved self |}.

Definition set_saved (self : video) (ws : worksheet) : video :=
  {| frame_number := frame_number self; speed := speed self;
     max_frames := max_frames self; is_paused := is_paused self;
     information_array := information_array self;
     self_threshold := self_threshold self; emitted := emitted self;
     saved := Some ws |}.

(** What [cv.VideoCapture(self.video_name)] gives: the frame count the
    container reports, and the frames [vid.read()] returns one after the
    other.  Past the last frame [vid.read()] returns [None]. *)
Record capture : Type := {
  frame_count : Z;
  frames : list Image
}.

Definition read (vid : list Image) : option Image * list Image :=
  match vid with
  | [] => (None, [])
  | f :: rest => (Some f, rest)
  end.

(** [Frame(f, threshold)]: on [None], [cv.cvtColor] raises. *)
Definition new_frame (cls : class_attrs) (f : option Image) (threshold_arg : Z)
  : result self_attrs :=
  match f with
  | Some img => Frame.init cls img threshold_arg
  | None => Raise CvError
  end.

(** [Video.pause], [Video.play] *)
Definition pause (self : video) : video := set_is_paused self true.
Definition play (self : video) : video := set_is_paused self false.

(** The five header writes of [save_data], and the cells they leave. *)
Definition write_header (ws : worksheet) : result worksheet :=
  ws <- ws_write ws 0 0 (label "Frame Number") ;;
  ws <- ws_write ws 0 1 (label "Radius (px)") ;;
  ws <- ws_write ws 0 2 (label "Speed (px)") ;;
  ws <- ws_write ws 0 3 (label "Length (px)") ;;
  ws_write ws 0 4 (label "Width (px)").

Definition header : worksheet :=
  [(0, 0, label "Frame Number"); (0, 1, label "Radius (px)");
   (0, 2, label "Speed (px)"); (0, 3, label "Length (px)");
   (0, 4, label "Width (px)")]%Z.

(** Body of [for array in self.information_array] in [save_data]:
    [array[6]] is the row, [array[2]], [array[3]], [array[4]], [array[5]]
    fill columns 1 to 4. *)
Definition save_row (ws : worksheet) (array : info) : result worksheet :=
  ws <- ws_write ws (info_frame_number array) 0
          (str_int (info_frame_number array)) ;;
  ws <- ws_write ws (info_frame_number array) 1
          (str_num (info_radius array)) ;;
  ws <- ws_write ws (info_frame_number array) 2
          (str_num (info_droplet_speed array)) ;;
  ws <- ws_write ws (info_frame_number array) 3
          (str_int (info_jet_width array)) ;;
  ws_write ws (info_frame_number array) 4 (str_int (info_jet_length array)).

(** The cells [save_row] writes for an entry. *)
Definition row_writes (array : info) : worksheet :=
  [(info_frame_number array, 0%Z, str_int (info_frame_number array));
   (info_frame_number array, 1%Z, str_num (info_radius array));
   (info_frame_number array, 2%Z, str_num (info_droplet_speed array));
   (info_frame_number array, 3%Z, str_int (info_jet_width array));
   (info_frame_number array, 4%Z, str_int (info_jet_length array))].

(** [Video.save_data(self)].  [wbwt_save] is what [wbwt.save('data.xls')]
    does with the worksheet: writing the file can fail. *)
Definition save_data (wbwt_save : worksheet -> result unit) (self : video)
  : result video :=
  ws <- write_header [] ;;
  ws <- for_each save_row (information_array self) ws ;;
  _ <- wbwt_save ws ;;
  Ok (set_saved self ws).

(** The local variables of [preprocess] across its loop: with the frames
    [vid] has not yet returned. *)
Record preprocess_locals : Type := {
  prev_droplet_list : option (list droplet);
  droplet_speed : R;
  vid : list Image;
  self_video : video
}.

(** Body of [while self.frame_number < self.max_frames]. *)
Definition preprocess_body (cls : class_attrs) (threshold_arg : Z)
  (st : preprocess_locals) : result preprocess_locals :=
  let self := self_video st in
  let self := set_frame_number self (frame_number self + 1) in
  let self := emit self (video_status (frame_number self) (max_frames self)) in
  let '(f, vid') := read (vid st) in
  frame <- new_frame cls f threshold_arg ;;
  out <- detect_droplets_and_jet frame ;;
  droplet_speed' <-
    match prev_droplet_list st with
    | Some prev => calculate_droplet_speed cls (out_droplet_list out) prev
    | None => Ok (droplet_speed st)
    end ;;
  match f with
  | Some img =>
      Ok {| prev_droplet_list := Some (out_droplet_list out);
            droplet_speed := droplet_speed';
            vid := vid';
            self_video := append_info self
                      {| info_f := img; info_cimg := out_cimg out;
                         info_radius := out_radius_avg out;
                         info_droplet_speed := droplet_speed';
                         info_jet_width := out_jet_width out;
                         info_jet_length := out_jet_length out;
                         info_frame_number := frame_number self |} |}
  | None => Raise CvError
  end.

(** The [while] loop.  Each iteration adds one to [self.frame_number], so
    [max_frames - frame_number] iterations exhaust it; [fuel] bounds the
    number of iterations. *)
Fixpoint preprocess_loop (cls : class_attrs) (threshold_arg : Z) (fuel : nat)
  (st : preprocess_locals) : result preprocess_locals :=
  if (frame_number (self_video st) <? max_frames (self_video st))%Z then
    match fuel with
    | O => Ok st
    | S fuel' =>
        st' <- preprocess_body cls threshold_arg st ;;
        preprocess_loop cls threshold_arg fuel' st'
    end
  else Ok st.

(** [Video.preprocess(self, threshold)], on the capture of
    [self.video_name]. *)
Definition preprocess (cls : class_attrs)
  (wbwt_save : worksheet -> result unit) (cap : capture) (self : video)
  (threshold_arg : Z) : result video :=
  let self := set_max_frames self (frame_count cap) in
  st <- preprocess_loop cls threshold_arg
          (Z.to_nat (max_frames self - frame_number self))
          {| prev_droplet_list := None; droplet_speed := 0;
             vid := frames cap; self_video := self |} ;;
  save_data wbwt_save (self_video st).

(** [Video.get_preprocessed_info(self)] *)
Definition get_preprocessed_info (self : video)
  : result (Image * Image * R * R * Z * Z) :=
  e0 <- PyList.getitem (information_array self) (frame_number self) ;;
  let frame := info_f e0 in
  e1 <- PyList.getitem (information_array self) (frame_number self) ;;
  let cimg := info_cimg e1 in
  e2 <- PyList.getitem (information_array self) (frame_number self) ;;
  let radius := info_radius e2 in
  e3 <- PyList.getitem (information_array self) (frame_number self) ;;
  let droplet_speed := info_droplet_speed e3 in
  e4 <- PyList.getitem (information_array self) (frame_number self) ;;
  let jet_width := info_jet_width e4 in
  e5 <- PyList.getitem (information_array self) (frame_number self) ;;
  let jet_length := info_jet_length e5 in
  Ok (frame, cimg, radius, droplet_speed, jet_width, jet_length).

(** [Video.clear_graph_data(self)] *)
Definition clear_graph_data (g : Graphs.data) : Graphs.data := Graphs.cleared.

(** One pass through the body of [while self.ThreadActive] in [run], on
    the video and the plotted data.  [int(...)] of the integers
    [jet_length] and [jet_width] is the identity.  (The pause [cv.waitKey]
    makes between two frames is not part of the state.) *)
Definition run_iteration (cls : class_attrs) (st : video * Graphs.data)
  : result (video * Graphs.data) :=
  let '(self, g) := st in
  if negb (is_paused self) then
    if (frame_number self <? Z.of_nat (length (information_array self)))%Z then
      '(frame, cimg, radius, droplet_speed, jet_width, jet_length) <-
        get_preprocessed_info self ;;
      let self :=
        emit self (info_signal (Py.int radius) jet_length jet_width
                     (Py.int droplet_speed)) in
      let self :=
        emit self (graph_signal (Py.int radius) jet_length jet_width
                     (Py.int droplet_speed) (frame_number self)) in
      let self := emit self (slider_signal (frame_number self)) in
      let converted_img := if outline cls then cimg else frame in
      let self := emit self (image_signal converted_img) in
      Ok (set_frame_number self (frame_number self + 1), g)
    else
      Ok (set_frame_number self 0, clear_graph_data g)
  else Ok (self, g).

(** [n] passes through the loop of [run]. *)
Fixpoint run_iterations (cls : class_attrs) (n : nat)
  (st : video * Graphs.data) : result (video * Graphs.data) :=
  match n with
  | O => Ok st
  | S n' => st' <- run_iteration cls st ;; run_iterations cls n' st'
  end.

(** [Frame(f, threshold).detect_droplets_and_jet()] *)
Definition analyse (cls : class_attrs) (f : Image) (threshold_arg : Z)
  : result pass_output :=
  frame <- Frame.init cls f threshold_arg ;;
  detect_droplets_and_jet frame.

(** Entries [new] are what processing the frames of [vid] one after the
    other yields, counting from frame number [n], when the droplet list
    of the preceding frame is [prev] ([None] before the first frame) and
    the speed last computed is [speed0]. *)
Fixpoint processed_from (cls : class_attrs) (threshold_arg : Z) (n : Z)
  (prev : option (list droplet)) (speed0 : R) (vid : list Image)
  (new : list info) : Prop :=
  match new with
  | [] => True
  | e :: new' =>
      exists (f : Image) (vid' : list Image) (out : pass_output),
        vid = f :: vid' /\
        analyse cls f threshold_arg = Ok out /\
        info_f e = f /\ info_cimg e = out_cimg out /\
        info_radius e = out_radius_avg out /\
        info_jet_width e = out_jet_width out /\
        info_jet_length e = out_jet_length out /\
        info_frame_number e = (n + 1)%Z /\
        match prev with
        | None => info_droplet_speed e = speed0
        | Some p =>
            calculate_droplet_speed cls (out_droplet_list out) p
            = Ok (info_droplet_speed e)
        end /\
        processed_from cls threshold_arg (n + 1)
          (Some (out_droplet_list out)) (info_droplet_speed e) vid' new'
  end.

(** The four signals [run] emits for entry [e] shown as frame [k]. *)
Definition frame_signals (cls : class_attrs) (k : Z) (e : info) : list signal :=
  [info_signal (Py.int (info_radius e)) (info_jet_length e) (info_jet_width e)
     (Py.int (info_droplet_speed e));
   graph_signal (Py.int (info_radius e)) (info_jet_length e) (info_jet_width e)
     (Py.int (info_droplet_speed e)) k;
   slider_signal k;
   image_signal (if outline cls then info_cimg e else info_f e)].

(** The signals of showing the entries [es] as frames [k], [k + 1], ... *)
Fixpoint playback (cls : class_attrs) (k : Z) (es : list info) : list signal :=
  match es with
  | [] => []
  | e :: es' => frame_signals cls k e ++ playback cls (k + 1) es'
  end.

End WithOpenCV.

(** Sample data over the test double that finds no contour: a capture of
    two frames, and a video with two entries. *)
Definition blank : @Image (stub_cv [] 1 4) := @nil overlay.

Definition fresh_video : @video (stub_cv [] 1 4) := new.

(** A disk that takes every worksheet. *)
Definition disk_ok : worksheet -> result unit := fun _ => Ok tt.

Definition two_frames : @capture (stub_cv [] 1 4) :=
  {| frame_count := 2; frames := [blank; blank] |}.

Definition sample_entry (n : Z) (v : R) : @info (stub_cv [] 1 4) :=
  {| info_f := blank; info_cimg := [DrawCircle (0, 0)%Z 1%Z] : list overlay;
     info_radius := 2; info_droplet_speed := v;
     info_jet_width := 3; info_jet_length := 40; info_frame_number := n |}.

Definition sample_video : @video (stub_cv [] 1 4) :=
  {| frame_number := 0; speed := 0; max_frames := 2; is_paused := false;
     information_array := [sample_entry 1 0; sample_entry 2 (38 / 100)];
     self_threshold := 128; emitted := []; saved := None |}.

End Video.

(* ================================================================== *)
(** * Class [MyGUI] of [main.py]: the plotted window *)

Module MyGUI.

Open Scope R_scope.

(** [MyGUI.add_new_point(self, radius, length, width, speed, frame)] *)
Definition add_new_point (g : Graphs.data) (radius length width speed frame : Z)
  : Graphs.data :=
  {| Graphs.frameData := Graphs.frameData g ++ [frame];
     Graphs.radiusData := Graphs.radiusData g ++ [radius];
     Graphs.lengthData := Graphs.lengthData g ++ [length];
     Graphs.widthData := Graphs.widthData g ++ [width];
     Graphs.speedData := Graphs.speedData g ++ [speed] |}.

(** [MyGUI.remove_first_point(self)] *)
Definition remove_first_point (g : Graphs.data) : result Graphs.data :=
  if (10 <? length (Graphs.frameData g))%nat then
    '(_, frameData') <- PyList.pop0 (Graphs.frameData g) ;;
    '(_, radiusData') <- PyList.pop0 (Graphs.radiusData g) ;;
    '(_, lengthData') <- PyList.pop0 (Graphs.lengthData g) ;;
    '(_, widthData') <- PyList.pop0 (Graphs.widthData g) ;;
    '(_, speedData') <- PyList.pop0 (Graphs.speedData g) ;;
    Ok {| Graphs.frameData := frameData'; Graphs.radiusData := radiusData';
          Graphs.lengthData := lengthData'; Graphs.widthData := widthData';
          Graphs.speedData := speedData' |}
  else Ok g.

(** The two data steps of [update_graph], in its order. *)
Definition push_point (g : Graphs.data) (radius length width speed frame : Z)
  : result Graphs.data :=
  remove_first_point (add_new_point g radius length width speed frame).

(** One plotted point: [(radius, length, width, speed, frame)]. *)
Definition plotted : Type := (Z * Z * Z * Z * Z)%type.

Definition point_radius (p : plotted) : Z := fst (fst (fst (fst p))).
Definition point_length (p : plotted) : Z := snd (fst (fst (fst p))).
Definition point_width (p : plotted) : Z := snd (fst (fst p)).
Definition point_speed (p : plotted) : Z := snd (fst p).
Definition point_frame (p : plotted) : Z := snd p.

(** The data steps of a sequence of [update_graph] calls. *)
Definition push_points (g : Graphs.data) (pts : list plotted)
  : result Graphs.data :=
  for_each
    (fun g p => push_point g (point_radius p) (point_length p) (point_width p)
                  (point_speed p) (point_frame p))
    pts g.

(** The last [n] elements of a list. *)
Definition lastn {A : Type} (n : nat) (xs : list A) : list A :=
  skipn (length xs - n) xs.

End MyGUI.

(* ================================================================== *)
(** * Vocabulary for the properties of the frame pass and the jet *)

Module Shape.

Open Scope R_scope.

Section WithOpenCV.

Context {cv : OpenCV}.

(** A jet-classified shape: non-degenerate, with roundness at most 0.3. *)
Definition is_jet (cnt : contour) : bool :=
  if Req_dec_T (m00 (moments cnt)) 0 then false
  else if Rle_dec (Spec.roundness cnt) (3 / 10) then true else false.

(** The last jet-classified contour of a list. *)
Definition last_jet (contours : list contour) : option contour :=
  last (map Some (filter is_jet contours)) None.

(** The entry a droplet-classified shape adds to the droplet list. *)
Definition droplet_entry (cnt : contour) : Frame.droplet :=
  (Spec.center_row_of cnt, Spec.radius_of cnt).

End WithOpenCV.

(** The pair [(jet_width, jet_length)] of a result of
    [jet_width_length]. *)
Definition measurement {I : Type} (r : result (I * (Z * Z))) : result (Z * Z) :=
  '(_, wl) <- r ;; Ok wl.

End Shape.

(* ================================================================== *)
(** * Facts about the primitives *)

Section Primitives.

Open Scope R_scope.

Lemma truediv_ok (a b : R) : b <> 0 -> Py.truediv a b = Ok (a / b).
Proof.
  intros Hb. unfold Py.truediv.
  destruct (Req_dec_T b 0) as [E | _]; [contradiction | reflexivity].
Qed.

Lemma truediv_zero (a : R) : Py.truediv a 0 = Raise ZeroDivisionError.
Proof.
  unfold Py.truediv.
  destruct (Req_dec_T 0 0) as [_ | N]; [reflexivity | now elim N].
Qed.

(** [np.argmin]: the index returned holds a value below every entry. *)
Lemma argmin_from_least (ds : list R) :
  forall (best_i : nat) (best : R) (i : nat),
  exists v : R,
    (v <= best) /\ Forall (fun d => v <= d) ds /\
    ((Np.argmin_from best_i best i ds = best_i /\ v = best) \/
     (exists k : nat, Np.argmin_from best_i best i ds = (i + k)%nat /\
                      nth_error ds k = Some v)).
Proof.
  induction ds as [| d ds IH]; intros best_i best i; simpl.
  - exists best. repeat split; auto using Rle_refl.
  - destruct (Rlt_dec d best) as [Hlt | Hge].
    + destruct (IH i d (S i)) as (v & Hv & Hall & Hcase).
      exists v. split; [lra |]. split; [constructor; assumption |].
      right. destruct Hcase as [[-> ->] | (k & -> & Hk)].
      * exists O. split; [lia | reflexivity].
      * exists (S k). split; [lia | assumption].
    + destruct (IH best_i best (S i)) as (v & Hv & Hall & Hcase).
      exists v. split; [assumption |]. split; [constructor; [lra | assumption] |].
      destruct Hcase as [[-> ->] | (k & -> & Hk)].
      * left. split; reflexivity.
      * right. exists (S k). split; [lia | assumption].
Qed.

Lemma argmin_least (d : R) (ds : list R) :
  exists (i : nat) (v : R),
    Np.argmin (d :: ds) = Ok i /\ nth_error (d :: ds) i = Some v /\
    Forall (fun x => v <= x) (d :: ds).
Proof.
  destruct (argmin_from_least ds O d 1%nat) as (v & Hv & Hall & Hcase).
  exists (Np.argmin_from O d 1%nat ds), v.
  split; [reflexivity |]. split.
  - destruct Hcase as [[-> ->] | (k & -> & Hk)]; [reflexivity | exact Hk].
  - constructor; assumption.
Qed.

(** [int(a / b)] on integers [a] and [b > 0] is the quotient rounded
    toward zero. *)
Lemma Int_part_IZR_div (a b : Z) :
  (0 <= a)%Z -> (0 < b)%Z -> Int_part (IZR a / IZR b) = (a / b)%Z.
Proof.
  intros Ha Hb. symmetry. apply Int_part_spec.
  pose proof (Z.div_mod a b ltac:(lia)) as Hdm.
  pose proof (Z.mod_pos_bound a b Hb) as [Hr0 Hr1].
  assert (HbR : 0 < IZR b) by (now apply IZR_lt).
  assert (Ea : IZR a = IZR b * IZR (a / b) + IZR (a mod b)).
  { rewrite <- mult_IZR, <- plus_IZR. now f_equal. }
  apply IZR_le in Hr0. apply IZR_lt in Hr1.
  assert (Eq : IZR a / IZR b = IZR (a / b) + IZR (a mod b) / IZR b).
  { rewrite Ea. field. lra. }
  rewrite Eq.
  assert (0 <= IZR (a mod b) / IZR b < 1).
  { split.
    - apply Rmult_le_pos; [lra |]. left. now apply Rinv_0_lt_compat.
    - apply Rmult_lt_reg_r with (r := IZR b); [exact HbR |].
      unfold Rdiv. rewrite Rmult_assoc, Rinv_l by lra. lra. }
  lra.
Qed.

Lemma int_IZR_div (a b : Z) :
  (0 < b)%Z -> Py.int (IZR a / IZR b) = (a ÷ b)%Z.
Proof.
  intros Hb. unfold Py.int.
  assert (HbR : 0 < IZR b) by (now apply IZR_lt).
  assert (Hinv : 0 < / IZR b) by (now apply Rinv_0_lt_compat).
  destruct (Rle_dec 0 (IZR a / IZR b)) as [Hle | Hlt].
  - assert (Ha : (0 <= a)%Z).
    { apply le_IZR. apply Rmult_le_reg_r with (r := / IZR b); [exact Hinv |].
      rewrite Rmult_0_l. exact Hle. }
    rewrite Int_part_IZR_div by assumption.
    symmetry. apply Z.quot_div_nonneg; lia.
  - assert (Ha : (a < 0)%Z).
    { apply lt_IZR. apply Rnot_le_lt in Hlt.
      apply Rmult_lt_reg_r with (r := / IZR b); [exact Hinv |].
      rewrite Rmult_0_l. exact Hlt. }
    replace (- (IZR a / IZR b)) with (IZR (- a) / IZR b)
      by (rewrite opp_IZR; field; lra).
    rewrite Int_part_IZR_div by lia.
    rewrite <- Z.quot_div_nonneg by lia.
    rewrite Z.quot_opp_l by lia. lia.
Qed.

(** [int(x_vals.size / 2)] *)
Lemma int_len_half {A : Type} (xs : list A) :
  Z.to_nat (Py.int (Py.len xs / 2)) = (length xs / 2)%nat.
Proof.
  unfold Py.len. rewrite INR_IZR_INZ.
  rewrite int_IZR_div by lia.
  rewrite Z.quot_div_nonneg by lia.
  change 2%Z with (Z.of_nat 2). rewrite <- Nat2Z.inj_div. apply Nat2Z.id.
Qed.

Lemma insert_perm (x : Z) (xs : list Z) : Permutation (x :: xs) (Np.insert x xs).
Proof.
  induction xs as [| y ys IH]; cbn.
  - reflexivity.
  - destruct (x <=? y)%Z; [reflexivity |].
    rewrite perm_swap. now apply perm_skip.
Qed.

Lemma sort_perm (xs : list Z) : Permutation xs (Np.sort xs).
Proof.
  induction xs as [| x xs IH]; cbn.
  - constructor.
  - rewrite <- insert_perm. now apply perm_skip.
Qed.

Lemma insert_sorted (x : Z) (xs : list Z) :
  Sorted Z.le xs -> Sorted Z.le (Np.insert x xs).
Proof.
  induction 1 as [| y ys Hs IH Hhd]; cbn.
  - repeat constructor.
  - destruct (x <=? y)%Z eqn:Hxy.
    + apply Z.leb_le in Hxy. repeat constructor; assumption.
    + apply Z.leb_gt in Hxy. constructor; [exact IH |].
      destruct ys as [| z zs]; cbn.
      * constructor. lia.
      * inversion Hhd; subst.
        destruct (x <=? z)%Z; constructor; lia.
Qed.

Lemma sort_sorted (xs : list Z) : Sorted Z.le (Np.sort xs).
Proof.
  induction xs as [| x xs IH]; cbn.
  - constructor.
  - now apply insert_sorted.
Qed.

Lemma sort_length (xs : list Z) : length (Np.sort xs) = length xs.
Proof. symmetry. apply Permutation_length, sort_perm. Qed.

Lemma amax_is_max (x : Z) (xs : list Z) : Spec.is_max (Np.amax x xs) (x :: xs).
Proof.
  unfold Np.amax. revert x.
  induction xs as [| y ys IH]; intros x; cbn [fold_left].
  - split; [now left |]. intros z [<- | []]. lia.
  - destruct (IH (Z.max x y)) as [Hin Hle]. split.
    + destruct Hin as [Hm | Hin].
      * rewrite <- Hm. destruct (Z.max_spec x y) as [[_ ->] | [_ ->]].
        -- right. now left.
        -- now left.
      * right. now right.
    + intros z [E | [E | Hz]].
      * specialize (Hle (Z.max x y) (or_introl eq_refl)). lia.
      * specialize (Hle (Z.max x y) (or_introl eq_refl)). lia.
      * apply Hle. now right.
Qed.

Lemma amin_is_min (x : Z) (xs : list Z) : Spec.is_min (Np.amin x xs) (x :: xs).
Proof.
  unfold Np.amin. revert x.
  induction xs as [| y ys IH]; intros x; cbn [fold_left].
  - split; [now left |]. intros z [<- | []]. lia.
  - destruct (IH (Z.min x y)) as [Hin Hle]. split.
    + destruct Hin as [Hm | Hin].
      * rewrite <- Hm. destruct (Z.min_spec x y) as [[_ ->] | [_ ->]].
        -- now left.
        -- right. now left.
      * right. now right.
    + intros z [E | [E | Hz]].
      * specialize (Hle (Z.min x y) (or_introl eq_refl)). lia.
      * specialize (Hle (Z.min x y) (or_introl eq_refl)). lia.
      * apply Hle. now right.
Qed.

End Primitives.

(* ================================================================== *)
(** * The correspondence and speed estimator *)

Section Estimator.

Import Frame.

Open Scope R_scope.

Implicit Types (lists prev_lists reference_pairs : list droplet).
Implicit Types (cps ps : list (Z * Z)) (cls : class_attrs).

Lemma distance_to_euclid (target_pair pair : droplet) :
  distance_to target_pair pair = Spec.euclid pair target_pair.
Proof. reflexivity. Qed.

Lemma filter_below_candidate reference_pairs (target_pair c : droplet) :
  In c (filter_below reference_pairs target_pair) <->
  Spec.is_candidate reference_pairs target_pair c.
Proof.
  unfold filter_below, Spec.is_candidate, Spec.center_row.
  rewrite filter_In, Z.ltb_lt. reflexivity.
Qed.

(** One target: either it has no candidate and nothing is recorded, or the
    pair with a closest candidate is appended. *)
Lemma record_closest_cases reference_pairs cps (target_pair : droplet) :
  ((forall c, ~ Spec.is_candidate reference_pairs target_pair c) /\
   record_closest reference_pairs cps target_pair = Ok cps)
  \/
  (exists c, Spec.closest_candidate reference_pairs target_pair c /\
             record_closest reference_pairs cps target_pair
             = Ok (cps ++ [(fst target_pair, fst c)])).
Proof.
  unfold record_closest.
  pose proof (filter_below_candidate reference_pairs target_pair) as Hcand.
  destruct (filter_below reference_pairs target_pair) as [| f fs] eqn:Hf.
  - left. split; [| reflexivity].
    intros c Hc. apply Hcand in Hc. exact Hc.
  - right. cbn [length Nat.eqb map].
    destruct (argmin_least (distance_to target_pair f)
                (map (distance_to target_pair) fs)) as (i & v & Harg & Hnth & Hall).
    rewrite Harg. cbn [bind].
    change (distance_to target_pair f :: map (distance_to target_pair) fs)
      with (map (distance_to target_pair) (f :: fs)) in Hnth, Hall.
    rewrite nth_error_map in Hnth.
    destruct (nth_error (f :: fs) i) as [c |] eqn:Hc; [| discriminate].
    injection Hnth as Hv.
    exists c. split.
    + split.
      * apply Hcand. eapply nth_error_In; eassumption.
      * intros c' Hc'. apply Hcand in Hc'.
        rewrite Forall_forall in Hall.
        rewrite <- !distance_to_euclid, Hv.
        apply Hall. apply in_map. exact Hc'.
    + unfold Py.getitem. rewrite Hc. reflexivity.
Qed.

(** The loop, from any state: it returns, and what it appends to
    [closest_pairs] is what the specification records. *)
Lemma speed_loop_recorded reference_pairs (zs : list (droplet * droplet)) :
  forall st : speed_locals,
  exists (st' : speed_locals) ps,
    for_each (speed_body reference_pairs) zs st = Ok st' /\
    closest_pairs st' = closest_pairs st ++ ps /\
    Spec.recorded reference_pairs zs ps.
Proof.
  induction zs as [| [target_pair reference_pair] zs IH]; intros st.
  - exists st, []. cbn. rewrite app_nil_r. repeat split. constructor.
  - cbn [for_each speed_body].
    destruct (record_closest_cases reference_pairs (closest_pairs st) target_pair)
      as [[Hnone ->] | (c & Hc & ->)]; cbn [bind].
    + match goal with |- context [for_each _ zs ?s] =>
        destruct (IH s) as (st' & ps & Hrun & Hps & Hrec) end.
      exists st', ps. cbn [closest_pairs] in Hps.
      repeat split; try assumption. now constructor.
    + match goal with |- context [for_each _ zs ?s] =>
        destruct (IH s) as (st' & ps & Hrun & Hps & Hrec) end.
      exists st', ((fst target_pair, fst c) :: ps). cbn [closest_pairs] in Hps.
      split; [assumption |]. split.
      * rewrite Hps, <- app_assoc. reflexivity.
      * now constructor.
Qed.

Lemma add_advances_sum cps :
  forall d : Z,
  add_advances d cps = (d + Np.sumZ (map (fun p => snd p - fst p) cps))%Z.
Proof.
  unfold add_advances, Np.sumZ.
  induction cps as [| p cps IH]; intros d; cbn [fold_left map fold_right].
  - lia.
  - rewrite IH. lia.
Qed.

Lemma IZR_sumZ_advances cps :
  IZR (Np.sumZ (map (fun p => (snd p - fst p)%Z) cps))
  = Np.sumR (map (fun p => IZR (snd p) - IZR (fst p)) cps).
Proof.
  unfold Np.sumZ, Np.sumR.
  induction cps as [| p cps IH]; cbn [map fold_right].
  - reflexivity.
  - rewrite plus_IZR, minus_IZR, IH. reflexivity.
Qed.

Lemma mean_distance_spec cps : mean_distance cps = Spec.mean_row_advance cps.
Proof.
  unfold mean_distance, Spec.mean_row_advance.
  destruct cps as [| p cps]; [reflexivity |].
  cbn [length Nat.ltb Nat.leb].
  rewrite add_advances_sum, Z.add_0_l, IZR_sumZ_advances. reflexivity.
Qed.

Lemma to_speed_ok cls (distance : R) :
  frame_rate cls <> 0%Z ->
  to_speed cls distance = Ok (distance * conversion * IZR (frame_rate cls)).
Proof.
  intros Hfr. unfold to_speed.
  assert (Hr : IZR (frame_rate cls) <> 0) by (now apply not_0_IZR).
  rewrite (truediv_ok 1 Hr). cbn [bind].
  assert (Hp : 1 / IZR (frame_rate cls) <> 0).
  { unfold Rdiv. rewrite Rmult_1_l. now apply Rinv_neq_0_compat. }
  rewrite (truediv_ok _ Hp). f_equal. field. exact Hr.
Qed.

Lemma to_speed_zero cls (distance : R) :
  frame_rate cls = 0%Z -> to_speed cls distance = Raise ZeroDivisionError.
Proof.
  intros Hfr. unfold to_speed. rewrite Hfr, truediv_zero. reflexivity.
Qed.

End Estimator.

Section EstimatorClaims.

Import Frame.

Open Scope R_scope.

Implicit Types (lists prev_lists : list droplet) (cls : class_attrs).

(** C1.  With a positive frame rate the estimator returns
    [mean_row_advance * conversion * frame_rate], where the recorded pairs
    are: for every positional pair of [zip(lists, prev_lists)], in order,
    nothing when no droplet of the previous list lies strictly below the
    target, and otherwise [(target.center_row, c.center_row)] for a
    candidate [c] at least Euclidean distance from the target; and
    [mean_row_advance] is the mean of the row advances of those pairs. *)
Theorem calculate_droplet_speed_spec cls lists prev_lists :
  (0 < frame_rate cls)%Z ->
  exists ps : list (Z * Z),
    Spec.recorded prev_lists (Py.zip lists prev_lists) ps /\
    calculate_droplet_speed cls lists prev_lists
    = Ok (Spec.mean_row_advance ps * conversion * IZR (frame_rate cls)).
Proof.
  intros Hfr. unfold calculate_droplet_speed, speed_loop.
  destruct (speed_loop_recorded prev_lists (Py.zip lists prev_lists)
              speed_locals_init) as (st & ps & Hrun & Hps & Hrec).
  exists ps. split; [exact Hrec |].
  rewrite Hrun. cbn [bind]. cbn [speed_locals_init closest_pairs app] in Hps.
  rewrite Hps, mean_distance_spec. apply to_speed_ok. lia.
Qed.

Lemma calculate_droplet_speed_spec_witness :
  exists ps : list (Z * Z),
    Spec.recorded [(50%Z, 3)] (Py.zip [(40%Z, 3)] [(50%Z, 3)]) ps /\
    calculate_droplet_speed (fps 1000) [(40%Z, 3)] [(50%Z, 3)]
    = Ok (Spec.mean_row_advance ps * conversion * IZR (frame_rate (fps 1000))).
Proof.
  apply (@calculate_droplet_speed_spec (fps 1000) [(40%Z, 3)] [(50%Z, 3)]).
  cbn. lia.
Defined.

(** C5.  With an empty previous list and a positive frame rate the
    estimator returns speed 0; it does not raise. *)
Theorem empty_previous_speed_zero cls lists :
  (0 < frame_rate cls)%Z ->
  calculate_droplet_speed cls lists [] = Ok 0.
Proof.
  intros Hfr. unfold calculate_droplet_speed, speed_loop, Py.zip.
  rewrite combine_nil. cbn [for_each bind speed_locals_init closest_pairs].
  rewrite to_speed_ok by lia.
  unfold mean_distance. cbn [length Nat.ltb Nat.leb]. f_equal. lra.
Qed.

Lemma empty_previous_speed_zero_witness :
  calculate_droplet_speed (fps 1000) [(40%Z, 3); (12%Z, 5 / 2)] [] = Ok 0.
Proof.
  apply (@empty_previous_speed_zero (fps 1000) [(40%Z, 3); (12%Z, 5 / 2)]).
  cbn. lia.
Defined.

(** C6.  With frame rate zero (the value of the class attribute when it
    was never assigned) the estimator raises [ZeroDivisionError], whatever
    the two lists are; it returns no speed. *)
Theorem zero_frame_rate_raises cls lists prev_lists :
  frame_rate cls = 0%Z ->
  calculate_droplet_speed cls lists prev_lists = Raise ZeroDivisionError.
Proof.
  intros Hfr. unfold calculate_droplet_speed, speed_loop.
  destruct (speed_loop_recorded prev_lists (Py.zip lists prev_lists)
              speed_locals_init) as (st & ps & -> & _ & _).
  cbn [bind]. now apply to_speed_zero.
Qed.

Lemma zero_frame_rate_raises_witness :
  calculate_droplet_speed class_default [(40%Z, 3)] [(50%Z, 3)]
  = Raise ZeroDivisionError.
Proof.
  apply (@zero_frame_rate_raises class_default [(40%Z, 3)] [(50%Z, 3)]).
  reflexivity.
Defined.

(** The two loop bodies keep [closest_pairs] equal. *)
Lemma speed_loop_yid_irrelevant reference_pairs (zs : list (droplet * droplet)) :
  forall st1 st2 : speed_locals,
  closest_pairs st1 = closest_pairs st2 ->
  match for_each (speed_body reference_pairs) zs st1,
        for_each (speed_body_no_yid reference_pairs) zs st2 with
  | Ok a, Ok b => closest_pairs a = closest_pairs b
  | Raise e1, Raise e2 => e1 = e2
  | _, _ => False
  end.
Proof.
  induction zs as [| [target_pair reference_pair] zs IH]; intros st1 st2 Heq.
  - exact Heq.
  - cbn [for_each speed_body speed_body_no_yid]. rewrite <- Heq.
    destruct (record_closest reference_pairs (closest_pairs st1) target_pair)
      as [cps | e]; cbn [bind].
    + apply IH. reflexivity.
    + reflexivity.
Qed.

(** C9.  The estimator equals, on every class state and every two lists,
    the variant whose loop body does not compute [y_intercept_difference]. *)
Theorem y_intercept_difference_unused cls lists prev_lists :
  calculate_droplet_speed cls lists prev_lists
  = calculate_droplet_speed_no_yid cls lists prev_lists.
Proof.
  unfold calculate_droplet_speed, calculate_droplet_speed_no_yid, speed_loop.
  pose proof (@speed_loop_yid_irrelevant prev_lists (Py.zip lists prev_lists)
                speed_locals_init speed_locals_init eq_refl) as H.
  destruct (for_each (speed_body prev_lists) _ _) as [a | e1];
    destruct (for_each (speed_body_no_yid prev_lists) _ _) as [b | e2];
    cbn [bind]; try contradiction.
  - now rewrite H.
  - now rewrite H.
Qed.

(** Every recorded pair advances by at least one row. *)
Lemma recorded_advances reference_pairs (zs : list (droplet * droplet)) ps :
  Spec.recorded reference_pairs zs ps ->
  Forall (fun p => (fst p + 1 <= snd p)%Z) ps.
Proof.
  induction 1 as [| t r rest ps Hnone _ IH | t r rest ps c Hc _ IH].
  - constructor.
  - exact IH.
  - constructor; [| exact IH].
    destruct Hc as [[_ Hlt] _]. cbn [fst snd]. lia.
Qed.

Lemma sum_advances_lower ps :
  Forall (fun p => (fst p + 1 <= snd p)%Z) ps ->
  INR (length ps) <= Np.sumR (map (fun p => IZR (snd p) - IZR (fst p)) ps).
Proof.
  unfold Np.sumR.
  induction 1 as [| p ps Hp _ IH].
  - cbn. lra.
  - cbn [map fold_right]. change (length (p :: ps)) with (S (length ps)).
    rewrite S_INR. apply IZR_le in Hp. rewrite plus_IZR in Hp. lra.
Qed.

Lemma mean_row_advance_lower ps :
  Forall (fun p => (fst p + 1 <= snd p)%Z) ps -> ps <> [] ->
  1 <= Spec.mean_row_advance ps.
Proof.
  intros Hall Hne. unfold Spec.mean_row_advance.
  destruct ps as [| p ps]; [contradiction |].
  pose proof (sum_advances_lower Hall) as Hsum.
  assert (Hlen : 0 < INR (length (p :: ps))) by (apply lt_0_INR; cbn; lia).
  apply Rmult_le_reg_r with (r := INR (length (p :: ps))); [exact Hlen |].
  unfold Rdiv. rewrite Rmult_assoc, Rinv_l by lra. lra.
Qed.

(** C10.  With a positive frame rate the estimator returns a nonnegative
    speed, which is strictly positive exactly when the loop recorded at
    least one pair. *)
Theorem speed_nonnegative_positive_iff_recorded cls lists prev_lists :
  (0 < frame_rate cls)%Z ->
  exists (st : speed_locals) (v : R),
    speed_loop speed_body lists prev_lists = Ok st /\
    calculate_droplet_speed cls lists prev_lists = Ok v /\
    0 <= v /\
    (0 < v <-> closest_pairs st <> []).
Proof.
  intros Hfr. unfold calculate_droplet_speed, speed_loop.
  destruct (speed_loop_recorded prev_lists (Py.zip lists prev_lists)
              speed_locals_init) as (st & ps & Hrun & Hps & Hrec).
  cbn [speed_locals_init closest_pairs app] in Hps.
  rewrite Hrun. cbn [bind]. rewrite to_speed_ok by lia.
  exists st. eexists. split; [reflexivity |]. split; [reflexivity |].
  rewrite Hps, mean_distance_spec.
  assert (Hf : 0 < IZR (frame_rate cls)) by (now apply IZR_lt).
  assert (Hc : 0 < conversion) by (unfold conversion; lra).
  pose proof (recorded_advances Hrec) as Hadv.
  destruct ps as [| p ps].
  - cbn [Spec.mean_row_advance]. split; [lra |].
    split; [intros H; lra | intros H; now elim H].
  - assert (Hm : 1 <= Spec.mean_row_advance (p :: ps))
      by (apply mean_row_advance_lower; [exact Hadv | discriminate]).
    assert (Hpos : 0 < Spec.mean_row_advance (p :: ps) * conversion
                       * IZR (frame_rate cls)).
    { apply Rmult_lt_0_compat; [apply Rmult_lt_0_compat |]; lra. }
    split; [lra |]. split; [discriminate | intros _; exact Hpos].
Qed.

Lemma speed_nonnegative_positive_iff_recorded_witness :
  exists (st : speed_locals) (v : R),
    speed_loop speed_body [(40%Z, 3)] [(50%Z, 3)] = Ok st /\
    calculate_droplet_speed (fps 1000) [(40%Z, 3)] [(50%Z, 3)] = Ok v /\
    0 <= v /\
    (0 < v <-> closest_pairs st <> []).
Proof.
  apply (@speed_nonnegative_positive_iff_recorded
           (fps 1000) [(40%Z, 3)] [(50%Z, 3)]).
  cbn. lia.
Defined.

(** Evaluation on concrete lists: a target with exactly one candidate. *)
Lemma record_closest_single reference_pairs cps (target_pair c : droplet) :
  filter_below reference_pairs target_pair = [c] ->
  record_closest reference_pairs cps target_pair
  = Ok (cps ++ [(fst target_pair, fst c)]).
Proof. intros Hf. unfold record_closest. rewrite Hf. reflexivity. Qed.

Lemma record_closest_empty reference_pairs cps (target_pair : droplet) :
  filter_below reference_pairs target_pair = [] ->
  record_closest reference_pairs cps target_pair = Ok cps.
Proof. intros Hf. unfold record_closest. rewrite Hf. reflexivity. Qed.

(** The end-to-end scenario of the specification: previous list
    [[(50, 3)]], current list [[(40, 3)]], 1000 frames per second. *)
Example speed_scenario :
  calculate_droplet_speed (fps 1000) [(40%Z, 3)] [(50%Z, 3)] = Ok (38 / 100).
Proof.
  unfold calculate_droplet_speed, speed_loop, Py.zip.
  cbn [combine for_each speed_body].
  rewrite (@record_closest_single _ _ _ (50%Z, 3)) by reflexivity.
  cbn [bind closest_pairs speed_locals_init app fst].
  rewrite to_speed_ok by (cbn; lia).
  unfold mean_distance, add_advances, conversion, Py.len.
  cbn [length Nat.ltb Nat.leb fold_left fst snd frame_rate fps INR].
  f_equal. replace (0 + (50 - 40))%Z with 10%Z by reflexivity. lra.
Qed.

Lemma zip_truncate_left {A B : Type} (xs : list A) (ys : list B) :
  Py.zip (Spec.truncate (Nat.min (length xs) (length ys)) xs) ys = Py.zip xs ys.
Proof.
  unfold Py.zip, Spec.truncate. revert ys.
  induction xs as [| x xs IH]; intros [| y ys]; cbn; try reflexivity.
  now rewrite IH.
Qed.

(** C3, as stated, fails: the previous list is read in full when the
    candidates are collected.  Current list [[(40, 3)]], previous list
    [[(30, 3), (50, 3)]]: the speed is 0.38, and 0 after both lists are
    cut to length 1. *)
Lemma truncating_both_changes_speed :
  let lists := [(40%Z, 3)] in
  let prev_lists := [(30%Z, 3); (50%Z, 3)] in
  let n := Nat.min (length lists) (length prev_lists) in
  calculate_droplet_speed (fps 1000) lists prev_lists = Ok (38 / 100) /\
  calculate_droplet_speed (fps 1000)
    (Spec.truncate n lists) (Spec.truncate n prev_lists) = Ok 0 /\
  calculate_droplet_speed (fps 1000)
    (Spec.truncate n lists) (Spec.truncate n prev_lists)
  <> calculate_droplet_speed (fps 1000) lists prev_lists.
Proof.
  cbv zeta.
  assert (H1 : calculate_droplet_speed (fps 1000)
                 [(40%Z, 3)] [(30%Z, 3); (50%Z, 3)] = Ok (38 / 100)).
  { unfold calculate_droplet_speed, speed_loop, Py.zip.
    cbn [combine for_each speed_body].
    rewrite (@record_closest_single _ _ _ (50%Z, 3)) by reflexivity.
    cbn [bind closest_pairs speed_locals_init app fst].
    rewrite to_speed_ok by (cbn; lia).
    unfold mean_distance, add_advances, conversion, Py.len.
    cbn [length Nat.ltb Nat.leb fold_left fst snd frame_rate fps INR].
    f_equal. replace (0 + (50 - 40))%Z with 10%Z by reflexivity. lra. }
  assert (H2 : calculate_droplet_speed (fps 1000)
                 [(40%Z, 3)] [(30%Z, 3)] = Ok 0).
  { unfold calculate_droplet_speed, speed_loop, Py.zip.
    cbn [combine for_each speed_body].
    rewrite record_closest_empty by reflexivity.
    cbn [bind closest_pairs speed_locals_init].
    rewrite to_speed_ok by (cbn; lia).
    unfold mean_distance. cbn [length Nat.ltb Nat.leb]. f_equal. lra. }
  change (Spec.truncate (Nat.min (length [(40%Z, 3)])
                           (length [(30%Z, 3); (50%Z, 3)])) [(40%Z, 3)])
    with [(40%Z, 3)].
  change (Spec.truncate (Nat.min (length [(40%Z, 3)])
                           (length [(30%Z, 3); (50%Z, 3)]))
            [(30%Z, 3); (50%Z, 3)])
    with [(30%Z, 3)].
  rewrite H1, H2. repeat split.
  intros E. injection E as E. lra.
Qed.

(** C3, amended.  Cutting the current list to the length of the shorter
    of the two lists leaves the result unchanged: the entries of the
    current list beyond the previous list's length are unused.  (The
    previous list is not cut: all its entries are candidates.) *)
Theorem truncating_current_keeps_speed cls lists prev_lists :
  calculate_droplet_speed cls
    (Spec.truncate (Nat.min (length lists) (length prev_lists)) lists)
    prev_lists
  = calculate_droplet_speed cls lists prev_lists.
Proof.
  unfold calculate_droplet_speed, speed_loop.
  now rewrite zip_truncate_left.
Qed.

End EstimatorClaims.

(* ================================================================== *)
(** * The frame pass: classification and measurement *)

Section FramePass.

Import Frame.

Context {cv : OpenCV}.

Open Scope R_scope.

Lemma mean_nonempty (xs : list Z) :
  xs <> [] -> Np.mean xs = Ok (Spec.meanZ xs).
Proof. destruct xs; [contradiction | reflexivity]. Qed.

(** The value of [jet_width_length] on a contour of two points or more. *)
Lemma jet_width_length_eval (img : Image) (p q : point) (rest : list point) :
  let cnt := p :: q :: rest in
  let xs := Np.sort (map fst cnt) in
  let k := (length cnt / 2)%nat in
  let x_val_left := Py.int (Spec.meanZ (firstn k xs)) in
  let x_val_right := Py.int (Spec.meanZ (skipn k xs)) in
  let max_y := Np.amax (snd p) (map snd (q :: rest)) in
  let min_y := Np.amin (snd p) (map snd (q :: rest)) in
  jet_width_length img cnt
  = Ok (rectangle img (x_val_left, min_y) (x_val_right, max_y),
        ((x_val_right - x_val_left)%Z, Np.int32 (max_y - min_y))).
Proof.
  intros cnt xs k. cbv zeta. unfold jet_width_length.
  fold cnt. fold xs. rewrite int_len_half.
  assert (Hlen : length xs = length cnt)
    by (unfold xs; now rewrite sort_length, length_map).
  rewrite Hlen. fold k.
  assert (Hn : (2 <= length cnt)%nat) by (cbn; lia).
  assert (Hk : (1 <= k /\ k < length cnt)%nat).
  { unfold k. split.
    - apply Nat.div_le_lower_bound; lia.
    - apply Nat.div_lt; lia. }
  assert (Hl : firstn k xs <> []).
  { intros E. apply (f_equal (@length Z)) in E.
    rewrite length_firstn, Hlen in E.
    change (length (@nil Z)) with 0%nat in E. lia. }
  assert (Hr : skipn k xs <> []).
  { intros E. apply (f_equal (@length Z)) in E.
    rewrite length_skipn, Hlen in E.
    change (length (@nil Z)) with 0%nat in E. lia. }
  rewrite (mean_nonempty Hl). cbn [bind].
  rewrite (mean_nonempty Hr). cbn [bind].
  reflexivity.
Qed.

Lemma meanZ_quot (xs : list Z) :
  xs <> [] ->
  Py.int (Spec.meanZ xs) = (Np.sumZ xs ÷ Z.of_nat (length xs))%Z.
Proof.
  intros Hne. unfold Spec.meanZ. rewrite INR_IZR_INZ. apply int_IZR_div.
  destruct xs; [contradiction | cbn [length]; lia].
Qed.

Lemma detect_roundness_ok (cnt : contour) :
  Spec.non_degenerate cnt -> arcLength cnt <> 0 ->
  detect_roundness (moments cnt) cnt
  = Ok (Spec.roundness cnt, contourArea cnt,
        Spec.center_col_of cnt, Spec.center_row_of cnt).
Proof.
  intros Hm Hp. unfold detect_roundness.
  rewrite !(truediv_ok _ Hm). cbn [bind].
  rewrite truediv_ok by (now apply pow_nonzero).
  reflexivity.
Qed.

Lemma pass_body_degenerate (st : pass_locals) (cnt : contour) :
  m00 (moments cnt) = 0 -> pass_body st cnt = Ok st.
Proof.
  intros Hz. unfold pass_body.
  destruct (Req_dec_T (m00 (moments cnt)) 0); [reflexivity | contradiction].
Qed.

Lemma pass_body_measured (st : pass_locals) (cnt : contour) :
  Spec.non_degenerate cnt -> arcLength cnt <> 0 ->
  pass_body st cnt
  = jet_branch
      (droplet_branch st (Spec.roundness cnt) (contourArea cnt)
         (Spec.center_col_of cnt) (Spec.center_row_of cnt))
      (Spec.roundness cnt) cnt.
Proof.
  intros Hm Hp. unfold pass_body.
  destruct (Req_dec_T (m00 (moments cnt)) 0) as [E | _]; [contradiction |].
  rewrite (detect_roundness_ok Hm Hp). reflexivity.
Qed.

Lemma for_each_app {St X : Type} (body : St -> X -> result St)
  (xs ys : list X) (s : St) :
  for_each body (xs ++ ys) s = (s' <- for_each body xs s ;; for_each body ys s').
Proof.
  revert s. induction xs as [| x xs IH]; intros s; cbn [app for_each bind].
  - reflexivity.
  - destruct (body s x) as [s1 | e]; cbn [bind]; [apply IH | reflexivity].
Qed.

(** The droplet case of one iteration. *)
Lemma pass_body_droplet (st : pass_locals) (cnt : contour) :
  Spec.non_degenerate cnt -> arcLength cnt <> 0 ->
  Spec.roundness cnt >= 5 / 10 ->
  pass_body st cnt
  = Ok {| circles_num := circles_num st + 1;
          radius_sum := radius_sum st + Spec.radius_of cnt;
          jet_width := jet_width st; jet_length := jet_length st;
          droplet_list := droplet_list st
                          ++ [(Spec.center_row_of cnt, Spec.radius_of cnt)];
          canvas := circle (canvas st)
                      (Spec.center_col_of cnt, Spec.center_row_of cnt)
                      (Py.int (Spec.radius_of cnt)) |}.
Proof.
  intros Hm Hp Hr. rewrite pass_body_measured by assumption.
  unfold droplet_branch, jet_branch.
  destruct (Rge_dec (Spec.roundness cnt) (5 / 10)) as [_ | N];
    [| contradiction].
  cbn [droplet_rad].
  destruct (Rle_dec (Spec.roundness cnt) (3 / 10)) as [Hle | _];
    [lra | reflexivity].
Qed.

(** C2.  A non-degenerate shape is handled by its roundness alone.  At
    roundness [>= 0.5] it is a droplet: counted, its radius added to the
    sum, its entry appended to the droplet list and its circle drawn; the
    jet measurement is left alone.  At roundness [<= 0.3] it is a jet: the
    pass takes the result of [jet_width_length] and leaves the droplet
    data alone.  Strictly between, it is neither: the pass state is
    unchanged, and the whole pass returns what it returns on the contour
    list without this shape. *)
Theorem classification_by_roundness (st : pass_locals) (cnt : contour) :
  Spec.non_degenerate cnt -> arcLength cnt <> 0 ->
  let r := Spec.roundness cnt in
  (r >= 5 / 10 ->
   Spec.classify r = Spec.DROPLET /\
   pass_body st cnt
   = Ok {| circles_num := circles_num st + 1;
           radius_sum := radius_sum st + Spec.radius_of cnt;
           jet_width := jet_width st; jet_length := jet_length st;
           droplet_list := droplet_list st
                           ++ [(Spec.center_row_of cnt, Spec.radius_of cnt)];
           canvas := circle (canvas st)
                       (Spec.center_col_of cnt, Spec.center_row_of cnt)
                       (Py.int (Spec.radius_of cnt)) |}) /\
  (r <= 3 / 10 ->
   Spec.classify r = Spec.JET /\
   pass_body st cnt
   = ('(canvas', (width, len)) <- jet_width_length (canvas st) cnt ;;
      Ok {| circles_num := circles_num st; radius_sum := radius_sum st;
            jet_width := width; jet_length := len;
            droplet_list := droplet_list st; canvas := canvas' |})) /\
  (3 / 10 < r < 5 / 10 ->
   Spec.classify r = Spec.NONE /\
   pass_body st cnt = Ok st /\
   forall (img : Image) (before after : list contour),
     detect_in_contours img (before ++ cnt :: after)
     = detect_in_contours img (before ++ after)).
Proof.
  intros Hm Hp r.
  assert (Hbody : forall s, pass_body s cnt
            = jet_branch (droplet_branch s r (contourArea cnt)
                            (Spec.center_col_of cnt) (Spec.center_row_of cnt))
                r cnt)
    by (intros s; now apply pass_body_measured).
  unfold Spec.classify, droplet_branch, jet_branch in *.
  repeat split.
  - destruct (Rge_dec r (5 / 10)); [reflexivity | contradiction].
  - rewrite Hbody.
    destruct (Rge_dec r (5 / 10)) as [_ | N]; [| contradiction].
    cbn [droplet_rad].
    destruct (Rle_dec r (3 / 10)) as [Hle | _]; [lra | reflexivity].
  - destruct (Rge_dec r (5 / 10)) as [Hge | _]; [lra |].
    destruct (Rle_dec r (3 / 10)); [reflexivity | contradiction].
  - rewrite Hbody.
    destruct (Rge_dec r (5 / 10)) as [Hge | _]; [lra |].
    destruct (Rle_dec r (3 / 10)) as [_ | N]; [reflexivity | contradiction].
  - destruct (Rge_dec r (5 / 10)) as [Hge | _]; [lra |].
    destruct (Rle_dec r (3 / 10)) as [Hle | _]; [lra | reflexivity].
  - rewrite Hbody.
    destruct (Rge_dec r (5 / 10)) as [Hge | _]; [lra |].
    destruct (Rle_dec r (3 / 10)) as [Hle | _]; [lra | reflexivity].
  - intros img before after. unfold detect_in_contours.
    rewrite !for_each_app. f_equal.
    destruct (for_each pass_body before (pass_init img)) as [s | e];
      cbn [bind for_each]; [| reflexivity].
    rewrite Hbody.
    destruct (Rge_dec r (5 / 10)) as [Hge | _]; [lra |].
    destruct (Rle_dec r (3 / 10)) as [Hle | _]; [lra | reflexivity].
Qed.

(** One iteration that returns counts and sums the radius of a
    droplet-classified shape and of no other. *)
Lemma pass_body_counts (st st' : pass_locals) (cnt : contour) :
  pass_body st cnt = Ok st' ->
  circles_num st'
  = (circles_num st + (if Spec.is_droplet cnt then 1 else 0))%Z /\
  radius_sum st'
  = radius_sum st + (if Spec.is_droplet cnt then Spec.radius_of cnt else 0).
Proof.
  unfold Spec.is_droplet.
  destruct (Req_dec_T (m00 (moments cnt)) 0) as [Hz | Hnz].
  - rewrite pass_body_degenerate by assumption.
    intros E. injection E as <-. split; [lia | lra].
  - destruct (Req_dec_T (arcLength cnt) 0) as [Hp | Hp].
    + unfold pass_body, detect_roundness.
      destruct (Req_dec_T (m00 (moments cnt)) 0) as [E | _]; [contradiction |].
      rewrite !(truediv_ok _ Hnz). cbn [bind].
      rewrite Hp. replace (0 ^ 2) with 0 by ring.
      rewrite truediv_zero. discriminate.
    + rewrite pass_body_measured by assumption.
      unfold droplet_branch, jet_branch.
      destruct (Rge_dec (Spec.roundness cnt) (5 / 10)) as [Hge | Hlt].
      * destruct (Rle_dec (Spec.roundness cnt) (3 / 10)) as [Hle | _]; [lra |].
        intros E. injection E as <-. cbn. split; reflexivity.
      * destruct (Rle_dec (Spec.roundness cnt) (3 / 10)) as [Hle | _].
        -- destruct (jet_width_length (canvas st) cnt)
             as [[canvas' [width len]] | e]; cbn [bind]; [| discriminate].
           intros E. injection E as <-. cbn [circles_num radius_sum].
           split; [lia | lra].
        -- intros E. injection E as <-. split; [lia | lra].
Qed.

(** One iteration on a well-measured contour returns. *)
Lemma pass_body_returns (st : pass_locals) (cnt : contour) :
  Spec.well_measured cnt -> exists st' : pass_locals, pass_body st cnt = Ok st'.
Proof.
  intros Hwm.
  destruct (Req_dec_T (m00 (moments cnt)) 0) as [Hz | Hnz].
  - exists st. now apply pass_body_degenerate.
  - destruct (Hwm Hnz) as [Hp Hlen].
    rewrite pass_body_measured by assumption.
    unfold jet_branch.
    destruct (Rle_dec (Spec.roundness cnt) (3 / 10)) as [Hle | _].
    + destruct cnt as [| p [| q rest]];
        [cbn in Hlen; lia | cbn in Hlen; lia |].
      match goal with |- context [jet_width_length ?c _] =>
        rewrite (jet_width_length_eval c p q rest) end.
      cbv zeta. cbn [bind]. eexists. reflexivity.
    + eexists. reflexivity.
Qed.

Lemma pass_loop_counts (contours : list contour) :
  forall st st' : pass_locals,
  for_each pass_body contours st = Ok st' ->
  circles_num st'
  = (circles_num st
     + Z.of_nat (length (filter Spec.is_droplet contours)))%Z /\
  radius_sum st'
  = radius_sum st
    + Np.sumR (map Spec.radius_of (filter Spec.is_droplet contours)).
Proof.
  induction contours as [| cnt contours IH]; intros st st'; cbn [for_each].
  - intros E. injection E as <-. cbn. split; [lia | lra].
  - destruct (pass_body st cnt) as [s1 | e] eqn:Hrun1; cbn [bind];
      [| discriminate].
    intros Hrun2.
    destruct (pass_body_counts _ _ Hrun1) as [Hc1 Hr1].
    destruct (IH _ _ Hrun2) as [Hc2 Hr2].
    rewrite Hc2, Hr2, Hc1, Hr1. cbn [filter].
    destruct (Spec.is_droplet cnt).
    + cbn [length map]. unfold Np.sumR. cbn [fold_right].
      split; [lia | lra].
    + split; [lia | lra].
Qed.

Lemma pass_loop_returns (contours : list contour) :
  Forall Spec.well_measured contours ->
  forall st : pass_locals,
  exists st' : pass_locals, for_each pass_body contours st = Ok st'.
Proof.
  induction 1 as [| cnt contours Hwm _ IH]; intros st.
  - exists st. reflexivity.
  - destruct (pass_body_returns st Hwm) as (s1 & Hrun1).
    destruct (IH s1) as (s2 & Hrun2).
    exists s2. cbn [for_each]. rewrite Hrun1. exact Hrun2.
Qed.

(** C7.  The average radius a frame pass returns is the arithmetic mean
    of [sqrt(area / pi)] over the droplet-classified shapes of the frame
    (non-degenerate, roundness at least 0.5), and 0 when there is none.
    The pass does return when contour discovery yields well-measured
    contours. *)
Theorem average_droplet_radius (self : self_attrs) (mask img : Image) :
  processed_image self = Some mask -> cimg self = Some img ->
  let droplets := filter Spec.is_droplet (findContours mask) in
  (forall out : pass_output,
     detect_droplets_and_jet self = Ok out ->
     out_radius_avg out
     = Spec.meanR (map (fun cnt => sqrt (contourArea cnt / PI)) droplets) /\
     (droplets = [] -> out_radius_avg out = 0)) /\
  (Forall Spec.well_measured (findContours mask) ->
   exists out : pass_output, detect_droplets_and_jet self = Ok out).
Proof.
  intros Hmask Himg droplets.
  unfold detect_droplets_and_jet, detect_in_contours.
  rewrite Hmask, Himg. split.
  - intros out.
    destruct (for_each pass_body (findContours mask) (pass_init img))
      as [st | e] eqn:Hrun; cbn [bind]; [| discriminate].
    intros E. injection E as <-.
    destruct (pass_loop_counts _ _ Hrun) as [Hc Hr].
    cbn [pass_init circles_num radius_sum] in Hc, Hr. fold droplets in Hc, Hr.
    unfold pass_finish. cbn [out_radius_avg]. rewrite Hc, Hr.
    change (fun cnt => sqrt (contourArea cnt / PI)) with Spec.radius_of.
    destruct droplets as [| d ds].
    + cbn. split; reflexivity.
    + split; [| discriminate].
      replace (0 <? 0 + Z.of_nat (length (d :: ds)))%Z with true
        by (symmetry; apply Z.ltb_lt; cbn [length]; lia).
      unfold Spec.meanR. cbn [map length].
      rewrite Z.add_0_l, <- INR_IZR_INZ, Rplus_0_l, length_map.
      reflexivity.
  - intros Hwm.
    destruct (pass_loop_returns Hwm (pass_init img)) as (st & ->).
    cbn [bind]. eexists. reflexivity.
Qed.



End FramePass.

Section JetExamples.

Import Frame.

Open Scope R_scope.

(** C4.  The code at the failing input.  The docstring of
    [jet_width_length] and the claim give the width as the difference
    between the means of the two halves of the sorted columns; the code
    truncates each mean with [int(...)] before it subtracts.  The thin
    strip is a jet (roundness [80 pi / 1764 < 0.3]); its sorted columns
    are [0, 0, 0, 1, 1], the halves [0, 0] and [0, 1, 1], their means 0
    and 2/3.  The width returned is [int(2/3) - int(0) = 0], not [2/3];
    the length returned is [20 - 0], as claimed. *)
Lemma jet_width_not_difference_of_means :
  let cv := stub_cv [] 20 42 in
  let xs := Np.sort (map fst thin_strip) in
  let left := firstn (length thin_strip / 2) xs in
  let right := skipn (length thin_strip / 2) xs in
  Spec.classify (@Spec.roundness cv thin_strip) = Spec.JET /\
  (2 <= length thin_strip)%nat /\
  @jet_width_length cv [] thin_strip
  = Ok ([DrawRectangle (0, 0)%Z (0, 20)%Z], (0%Z, 20%Z)) /\
  Spec.meanZ right - Spec.meanZ left = 2 / 3 /\
  IZR 0 <> Spec.meanZ right - Spec.meanZ left.
Proof.
  cbv zeta.
  change (Np.sort (map fst thin_strip)) with [0; 0; 0; 1; 1]%Z.
  change (length thin_strip / 2)%nat with 2%nat.
  cbn [firstn skipn].
  assert (Hm : Spec.meanZ [0; 1; 1]%Z - Spec.meanZ [0; 0]%Z = 2 / 3).
  { unfold Spec.meanZ, Np.sumZ. cbn [fold_right length INR].
    change (0 + (1 + (1 + 0)))%Z with 2%Z. change (0 + (0 + 0))%Z with 0%Z.
    lra. }
  split; [| split; [cbn; lia | split; [| split; [exact Hm | rewrite Hm; lra]]]].
  - unfold Spec.classify, Spec.roundness. cbn [contourArea arcLength stub_cv].
    pose proof PI_4 as Hpi4. pose proof PI_RGT_0 as Hpi0.
    destruct (Rge_dec (4 * PI * 20 / 42 ^ 2) (5 / 10)) as [Hge | _]; [lra |].
    destruct (Rle_dec (4 * PI * 20 / 42 ^ 2) (3 / 10)) as [_ | N];
      [reflexivity | lra].
  - unfold thin_strip. rewrite jet_width_length_eval. cbv zeta.
    change (Np.sort (map fst [(0, 0); (1, 0); (1, 20); (0, 20); (0, 10)]%Z))
      with [0; 0; 0; 1; 1]%Z.
    change (length [(0, 0); (1, 0); (1, 20); (0, 20); (0, 10)]%Z / 2)%nat
      with 2%nat.
    cbn [firstn skipn].
    rewrite !meanZ_quot by discriminate.
    reflexivity.
Qed.

(** The unit square under the test double: roundness [pi / 4], a
    droplet. *)
Lemma classification_by_roundness_witness :
  let cv := stub_cv [] 1 4 in
  let st := @pass_init cv [] in
  let cnt := [(0, 0); (1, 0); (1, 1); (0, 1)]%Z in
  Spec.classify (@Spec.roundness cv cnt) = Spec.DROPLET /\
  @pass_body cv st cnt
  = Ok (@Build_pass_locals cv (0 + 1) (0 + @Spec.radius_of cv cnt) 0 0
          ([] ++ [(@Spec.center_row_of cv cnt, @Spec.radius_of cv cnt)])
          ([] ++ [DrawCircle (@Spec.center_col_of cv cnt,
                              @Spec.center_row_of cv cnt)
                    (Py.int (@Spec.radius_of cv cnt))])).
Proof.
  cbv zeta.
  assert (Hnd : @Spec.non_degenerate (stub_cv [] 1 4)
                  [(0, 0); (1, 0); (1, 1); (0, 1)]%Z)
    by (unfold Spec.non_degenerate; cbn; lra).
  assert (Hp : @arcLength (stub_cv [] 1 4)
                 [(0, 0); (1, 0); (1, 1); (0, 1)]%Z <> 0)
    by (cbn; lra).
  destruct (@classification_by_roundness (stub_cv [] 1 4)
              (@pass_init (stub_cv [] 1 4) [])
              [(0, 0); (1, 0); (1, 1); (0, 1)]%Z Hnd Hp) as [Hdroplet _].
  apply Hdroplet.
  unfold Spec.roundness. cbn [contourArea arcLength stub_cv].
  pose proof PI2_1. lra.
Defined.

Lemma average_droplet_radius_witness :
  let cv := stub_cv two_squares 1 4 in
  let self := @Build_self_attrs cv [] (Some []) (Some []) in
  let droplets := filter (@Spec.is_droplet cv) (@findContours cv []) in
  exists out : @pass_output cv,
    @detect_droplets_and_jet cv self = Ok out /\
    out_radius_avg out
    = Spec.meanR (map (fun cnt => sqrt (@contourArea cv cnt / PI)) droplets).
Proof.
  cbv zeta.
  destruct (@average_droplet_radius (stub_cv two_squares 1 4)
              (@Build_self_attrs (stub_cv two_squares 1 4)
                 [] (Some []) (Some []))
              [] [] eq_refl eq_refl) as [Hmean Hreturns].
  destruct Hreturns as [out Hout].
  - repeat constructor; cbn; lra || lia.
  - exists out. split; [exact Hout |]. apply Hmean. exact Hout.
Defined.

(** The two unit squares of the test double are droplets (roundness
    [pi / 4]), and their average radius is [sqrt(1 / pi)]. *)
Example two_squares_average :
  let cv := stub_cv two_squares 1 4 in
  exists out : @pass_output cv,
    @detect_droplets_and_jet cv (@Build_self_attrs cv [] (Some []) (Some []))
    = Ok out /\
    out_radius_avg out = sqrt (1 / PI) /\
    length (out_droplet_list out) = 2%nat.
Proof.
  cbv zeta.
  assert (Hpi : 2 < PI) by (pose proof PI2_1; lra).
  unfold detect_droplets_and_jet, detect_in_contours.
  cbn [processed_image cimg findContours stub_cv two_squares for_each].
  assert (Hr : forall cnt, @Spec.roundness (stub_cv two_squares 1 4) cnt
                           >= 5 / 10).
  { intros cnt. unfold Spec.roundness. cbn [contourArea arcLength stub_cv].
    lra. }
  assert (Hstep : forall st cnt,
            @pass_body (stub_cv two_squares 1 4) st cnt
            = Ok (@Build_pass_locals (stub_cv two_squares 1 4)
                    (circles_num st + 1) (radius_sum st + sqrt (1 / PI))
                    (jet_width st) (jet_length st)
                    (droplet_list st
                     ++ [(@Spec.center_row_of (stub_cv two_squares 1 4) cnt,
                          sqrt (1 / PI))])
                    (canvas st
                     ++ [DrawCircle
                           (@Spec.center_col_of (stub_cv two_squares 1 4) cnt,
                            @Spec.center_row_of (stub_cv two_squares 1 4) cnt)
                           (Py.int (sqrt (1 / PI)))]))).
  { intros st cnt.
    apply (@pass_body_droplet (stub_cv two_squares 1 4));
      [unfold Spec.non_degenerate; cbn; lra | cbn; lra | apply Hr]. }
  rewrite Hstep. cbn [bind]. rewrite Hstep. cbn [bind].
  eexists. split; [reflexivity |].
  unfold pass_finish.
  cbn [out_radius_avg out_droplet_list circles_num radius_sum droplet_list
       pass_init app length].
  split; [| reflexivity].
  change (0 <? 0 + 1 + 1)%Z with true. change (0 + 1 + 1)%Z with 2%Z.
  cbv iota. lra.
Qed.



End JetExamples.

(* ================================================================== *)
(** * More on the correspondence and speed estimator *)

Section EstimatorMore.

Import Frame.

Open Scope R_scope.

Implicit Types (lists prev_lists reference_pairs : list droplet).
Implicit Types (cps ps : list (Z * Z)) (cls : class_attrs).

(** The loop always returns; its pairs are the recorded ones. *)
Lemma speed_loop_returns lists prev_lists :
  exists (st : speed_locals),
    speed_loop speed_body lists prev_lists = Ok st /\
    Spec.recorded prev_lists (Py.zip lists prev_lists) (closest_pairs st).
Proof.
  unfold speed_loop.
  destruct (speed_loop_recorded prev_lists (Py.zip lists prev_lists)
              speed_locals_init) as (st & ps & Hrun & Hps & Hrec).
  exists st. split; [exact Hrun |].
  cbn [speed_locals_init closest_pairs app] in Hps. now rewrite Hps.
Qed.

Lemma calculate_from_loop cls lists prev_lists (st : speed_locals) :
  speed_loop speed_body lists prev_lists = Ok st ->
  calculate_droplet_speed cls lists prev_lists
  = to_speed cls (Spec.mean_row_advance (closest_pairs st)).
Proof.
  intros Hrun. unfold calculate_droplet_speed. rewrite Hrun. cbn [bind].
  now rewrite mean_distance_spec.
Qed.

(** X1.  The estimator returns a speed exactly when the frame rate is not
    zero: a negative frame rate is not rejected. *)
Theorem speed_returns_iff_frame_rate_nonzero cls lists prev_lists :
  (exists v : R, calculate_droplet_speed cls lists prev_lists = Ok v) <->
  frame_rate cls <> 0%Z.
Proof.
  destruct (speed_loop_returns lists prev_lists) as (st & Hrun & _).
  rewrite (calculate_from_loop cls _ _ Hrun).
  split.
  - intros [v Hv] Hz. rewrite (to_speed_zero _ _ Hz) in Hv. discriminate.
  - intros Hnz. eexists. now apply to_speed_ok.
Qed.

Lemma recorded_drawn reference_pairs (zs : list (droplet * droplet)) ps :
  Spec.recorded reference_pairs zs ps ->
  (length ps <= length zs)%nat /\
  Forall (fun p => (exists z r, In z zs /\ fst z = (fst p, r)) /\
                   (exists r, In (snd p, r) reference_pairs) /\
                   (fst p < snd p)%Z) ps.
Proof.
  induction 1 as [| t r rest ps Hnone _ [IHl IHf]
                  | t r rest ps c Hc _ [IHl IHf]].
  - split; [cbn; lia | constructor].
  - split; [cbn [length]; lia |].
    eapply Forall_impl; [| exact IHf].
    intros p ((z & r0 & Hz & Ez) & Hp & Hlt).
    split; [| split; assumption]. exists z, r0. split; [now right | exact Ez].
  - split; [cbn [length]; lia |].
    destruct Hc as [[Hin Hlt] _]. constructor.
    + cbn [fst snd]. split; [| split].
      * exists (t, r), (snd t). split; [now left |]. cbn. now destruct t.
      * exists (snd c). unfold Spec.center_row. now destruct c.
      * exact Hlt.
    + eapply Forall_impl; [| exact IHf].
      intros p ((z & r0 & Hz & Ez) & Hp & Hlt').
      split; [| split; assumption]. exists z, r0. split; [now right | exact Ez].
Qed.

(** X2.  The pairs the loop records: at most one per position of the shorter
    list, each made of the row of a current droplet and the row of a
    previous droplet strictly below it. *)
Theorem recorded_pairs_drawn_from_lists lists prev_lists :
  exists st : speed_locals,
    speed_loop speed_body lists prev_lists = Ok st /\
    (length (closest_pairs st)
     <= Nat.min (length lists) (length prev_lists))%nat /\
    Forall (fun p => (exists r, In (fst p, r) lists) /\
                     (exists r, In (snd p, r) prev_lists) /\
                     (fst p < snd p)%Z) (closest_pairs st).
Proof.
  destruct (speed_loop_returns lists prev_lists) as (st & Hrun & Hrec).
  exists st. split; [exact Hrun |].
  destruct (recorded_drawn Hrec) as [Hlen Hall].
  unfold Py.zip in *. rewrite length_combine in Hlen. split; [exact Hlen |].
  eapply Forall_impl; [| exact Hall].
  intros p ((z & r0 & Hz & Ez) & Hp & Hlt).
  split; [| split; assumption].
  exists r0. destruct z as [t r]. cbn [fst] in Ez. subst t.
  eapply in_combine_l. exact Hz.
Qed.

Lemma recorded_no_candidate reference_pairs (zs : list (droplet * droplet)) ps :
  Spec.recorded reference_pairs zs ps ->
  (forall z c, In z zs -> ~ Spec.is_candidate reference_pairs (fst z) c) ->
  ps = [].
Proof.
  induction 1 as [| t r rest ps Hnone _ IH | t r rest ps c Hc _ IH];
    intros Hno.
  - reflexivity.
  - apply IH. intros z c' Hz. apply Hno. now right.
  - destruct Hc as [Hcand _]. exfalso.
    apply (Hno (t, r) c (or_introl eq_refl)). exact Hcand.
Qed.

(** X3.  When no previous droplet lies strictly below a current droplet, the
    estimated speed is zero (at any nonzero frame rate).  This covers an
    empty current list and droplets that moved up. *)
Theorem no_droplet_below_speed_zero cls lists prev_lists :
  frame_rate cls <> 0%Z ->
  (forall t c, In t lists -> In c prev_lists -> (fst c <= fst t)%Z) ->
  calculate_droplet_speed cls lists prev_lists = Ok 0.
Proof.
  intros Hfr Hup.
  destruct (speed_loop_returns lists prev_lists) as (st & Hrun & Hrec).
  rewrite (calculate_from_loop cls _ _ Hrun).
  assert (Hnil : closest_pairs st = []).
  { apply (recorded_no_candidate Hrec).
    intros [t r] c Hz [Hin Hlt]. cbn [fst] in Hlt.
    apply in_combine_l in Hz. specialize (Hup t c Hz Hin).
    unfold Spec.center_row in Hlt. lia. }
  rewrite Hnil, to_speed_ok by assumption.
  cbn [Spec.mean_row_advance]. f_equal. lra.
Qed.

Lemma no_droplet_below_speed_zero_witness :
  calculate_droplet_speed (fps 1000)
    [(50%Z, 3); (60%Z, 2)] [(40%Z, 3); (50%Z, 1)] = Ok 0.
Proof.
  apply (@no_droplet_below_speed_zero (fps 1000)
           [(50%Z, 3); (60%Z, 2)] [(40%Z, 3); (50%Z, 1)]).
  - cbn. lia.
  - intros t c [<- | [<- | []]] [<- | [<- | []]]; cbn; lia.
Defined.

(** [np.argmin] returns the first index of the least value: every entry
    before it is strictly greater. *)
Lemma argmin_from_first (ds : list R) :
  forall (best_i : nat) (best : R) (i : nat),
  (Np.argmin_from best_i best i ds = best_i /\ Forall (fun d => best <= d) ds)
  \/
  (exists (k : nat) (v : R),
     Np.argmin_from best_i best i ds = (i + k)%nat /\
     nth_error ds k = Some v /\ v < best /\
     Forall (fun d => v <= d) ds /\
     forall (j : nat) (x : R), (j < k)%nat -> nth_error ds j = Some x -> v < x).
Proof.
  induction ds as [| d ds IH]; intros best_i best i; cbn [Np.argmin_from].
  - left. split; [reflexivity | constructor].
  - destruct (Rlt_dec d best) as [Hlt | Hge].
    + right. destruct (IH i d (S i)) as [[-> Hall] | (k & v & -> & Hk & Hv & Hall & Hfirst)].
      * exists O, d. split; [lia |]. split; [reflexivity |].
        split; [exact Hlt |]. split; [constructor; [lra | exact Hall] |].
        intros j x Hj. lia.
      * exists (S k), v. split; [lia |]. split; [exact Hk |].
        split; [lra |]. split; [constructor; [lra | exact Hall] |].
        intros [| j] x Hj Hx.
        -- cbn in Hx. injection Hx as <-. exact Hv.
        -- apply (Hfirst j x); [lia | exact Hx].
    + destruct (IH best_i best (S i)) as [[-> Hall] | (k & v & -> & Hk & Hv & Hall & Hfirst)].
      * left. split; [reflexivity |]. constructor; [lra | exact Hall].
      * right. exists (S k), v. split; [lia |]. split; [exact Hk |].
        split; [exact Hv |]. split; [constructor; [lra | exact Hall] |].
        intros [| j] x Hj Hx.
        -- cbn in Hx. injection Hx as <-. lra.
        -- apply (Hfirst j x); [lia | exact Hx].
Qed.

Lemma argmin_first (d : R) (ds : list R) :
  exists (i : nat) (v : R),
    Np.argmin (d :: ds) = Ok i /\ nth_error (d :: ds) i = Some v /\
    Forall (fun x => v <= x) (d :: ds) /\
    forall (j : nat) (x : R),
      (j < i)%nat -> nth_error (d :: ds) j = Some x -> v < x.
Proof.
  cbn [Np.argmin].
  destruct (argmin_from_first ds O d 1%nat)
    as [[-> Hall] | (k & v & -> & Hk & Hv & Hall & Hfirst)].
  - exists O, d. split; [reflexivity |]. split; [reflexivity |].
    split; [constructor; [lra | exact Hall] |]. intros j x Hj. lia.
  - exists (S k), v. split; [reflexivity |]. split; [exact Hk |].
    split; [constructor; [lra | exact Hall] |].
    intros [| j] x Hj Hx.
    + cbn in Hx. injection Hx as <-. exact Hv.
    + apply (Hfirst j x); [lia | exact Hx].
Qed.

(** X4.  Ties between equally close candidates go to the one that comes first
    in the previous list: the candidate recorded for a target is strictly
    closer than every candidate before it (and at least as close as every
    candidate after it). *)
Theorem closest_candidate_first_among_ties reference_pairs cps
  (target_pair : droplet) :
  filter_below reference_pairs target_pair <> [] ->
  exists (i : nat) (c : droplet),
    nth_error (filter_below reference_pairs target_pair) i = Some c /\
    record_closest reference_pairs cps target_pair
    = Ok (cps ++ [(fst target_pair, fst c)]) /\
    (forall (j : nat) (c' : droplet),
       (j < i)%nat ->
       nth_error (filter_below reference_pairs target_pair) j = Some c' ->
       distance_to target_pair c < distance_to target_pair c') /\
    (forall c' : droplet,
       In c' (filter_below reference_pairs target_pair) ->
       distance_to target_pair c <= distance_to target_pair c').
Proof.
  intros Hne. unfold record_closest.
  destruct (filter_below reference_pairs target_pair) as [| f fs];
    [contradiction |].
  cbn [length Nat.eqb map].
  destruct (argmin_first (distance_to target_pair f)
              (map (distance_to target_pair) fs))
    as (i & v & Harg & Hnth & Hall & Hfirst).
  rewrite Harg. cbn [bind].
  change (distance_to target_pair f :: map (distance_to target_pair) fs)
    with (map (distance_to target_pair) (f :: fs)) in Hnth, Hall, Hfirst.
  rewrite nth_error_map in Hnth.
  destruct (nth_error (f :: fs) i) as [c |] eqn:Hc; [| discriminate].
  injection Hnth as Hv.
  exists i, c. split; [exact Hc |]. split.
  - unfold Py.getitem. rewrite Hc. reflexivity.
  - split.
    + intros j c' Hj Hc'. rewrite Hv. apply (Hfirst j); [exact Hj |].
      rewrite nth_error_map, Hc'. reflexivity.
    + intros c' Hin. rewrite Hv. rewrite Forall_forall in Hall.
      apply Hall. now apply in_map.
Qed.

Lemma closest_candidate_first_among_ties_witness :
  exists (i : nat) (c : droplet),
    nth_error (filter_below [(44%Z, 0); (40%Z, 3); (44%Z, 6)] (40%Z, 3)) i
    = Some c /\
    record_closest [(44%Z, 0); (40%Z, 3); (44%Z, 6)] [] (40%Z, 3)
    = Ok ([] ++ [(fst (40%Z, 3), fst c)]) /\
    (forall (j : nat) (c' : droplet),
       (j < i)%nat ->
       nth_error (filter_below [(44%Z, 0); (40%Z, 3); (44%Z, 6)] (40%Z, 3)) j
       = Some c' ->
       distance_to (40%Z, 3) c < distance_to (40%Z, 3) c') /\
    (forall c' : droplet,
       In c' (filter_below [(44%Z, 0); (40%Z, 3); (44%Z, 6)] (40%Z, 3)) ->
       distance_to (40%Z, 3) c <= distance_to (40%Z, 3) c').
Proof.
  apply (@closest_candidate_first_among_ties
           [(44%Z, 0); (40%Z, 3); (44%Z, 6)] [] (40%Z, 3)).
  cbn. discriminate.
Defined.

Lemma mean_row_advance_upper ps (D : Z) :
  Forall (fun p => (snd p - fst p <= D)%Z) ps -> (0 <= D)%Z ->
  Spec.mean_row_advance ps <= IZR D.
Proof.
  intros Hall HD. unfold Spec.mean_row_advance.
  destruct ps as [| p ps]; [now apply IZR_le |].
  assert (Hsum : Np.sumR (map (fun p => IZR (snd p) - IZR (fst p)) (p :: ps))
                 <= INR (length (p :: ps)) * IZR D).
  { clear HD. induction Hall as [| q qs Hq _ IH].
    - cbn. lra.
    - change (length (q :: qs)) with (S (length qs)). rewrite S_INR.
      unfold Np.sumR in *. cbn [map fold_right].
      apply IZR_le in Hq. rewrite minus_IZR in Hq. lra. }
  assert (Hlen : 0 < INR (length (p :: ps))) by (apply lt_0_INR; cbn; lia).
  apply Rmult_le_reg_r with (r := INR (length (p :: ps))); [exact Hlen |].
  unfold Rdiv. rewrite Rmult_assoc, Rinv_l by lra. lra.
Qed.

(** X5.  The speed is bounded by the largest row gap: when no previous droplet
    is more than [D] rows below a current droplet, the speed is at most
    [D * conversion * frame_rate]. *)
Theorem speed_bounded_by_largest_gap cls lists prev_lists (D : Z) :
  (0 < frame_rate cls)%Z -> (0 <= D)%Z ->
  (forall t c, In t lists -> In c prev_lists -> (fst c - fst t <= D)%Z) ->
  exists v : R,
    calculate_droplet_speed cls lists prev_lists = Ok v /\
    v <= IZR D * conversion * IZR (frame_rate cls).
Proof.
  intros Hfr HD Hgap.
  destruct (speed_loop_returns lists prev_lists) as (st & Hrun & Hrec).
  rewrite (calculate_from_loop cls _ _ Hrun), to_speed_ok by lia.
  eexists. split; [reflexivity |].
  assert (Hm : Spec.mean_row_advance (closest_pairs st) <= IZR D).
  { apply mean_row_advance_upper; [| exact HD].
    destruct (recorded_drawn Hrec) as [_ Hall].
    eapply Forall_impl; [| exact Hall].
    intros p ((z & r0 & Hz & Ez) & (r1 & Hp) & _).
    destruct z as [t r]. cbn [fst] in Ez. subst t.
    apply in_combine_l in Hz.
    exact (Hgap (fst p, r0) (snd p, r1) Hz Hp). }
  assert (Hf : 0 < IZR (frame_rate cls)) by (now apply IZR_lt).
  assert (Hc : 0 < conversion) by (unfold conversion; lra).
  apply Rmult_le_compat_r; [lra |]. apply Rmult_le_compat_r; lra.
Qed.

Lemma speed_bounded_by_largest_gap_witness :
  exists v : R,
    calculate_droplet_speed (fps 1000)
      [(40%Z, 3); (42%Z, 2)] [(50%Z, 3); (45%Z, 2)] = Ok v /\
    v <= IZR 10 * conversion * IZR (frame_rate (fps 1000)).
Proof.
  apply (@speed_bounded_by_largest_gap (fps 1000)
           [(40%Z, 3); (42%Z, 2)] [(50%Z, 3); (45%Z, 2)] 10).
  - cbn. lia.
  - lia.
  - intros t c [<- | [<- | []]] [<- | [<- | []]]; cbn; lia.
Defined.

Lemma recorded_closest reference_pairs (zs : list (droplet * droplet)) ps :
  Spec.recorded reference_pairs zs ps ->
  Forall (fun p => exists z c,
            In z zs /\ Spec.closest_candidate reference_pairs (fst z) c /\
            p = (fst (fst z), fst c)) ps.
Proof.
  induction 1 as [| t r rest ps Hnone _ IH | t r rest ps c Hc _ IH].
  - constructor.
  - eapply Forall_impl; [| exact IH].
    intros p (z & c & Hz & Hc & ->). exists z, c. split; [now right | now split].
  - constructor.
    + exists (t, r), c. split; [now left | now split].
    + eapply Forall_impl; [| exact IH].
      intros p (z & c' & Hz & Hc' & ->).
      exists z, c'. split; [now right | now split].
Qed.

(** X6.  When all droplets have the same radius, each target is matched with
    the nearest previous droplet below it: no previous droplet lies
    strictly between the two rows of a recorded pair. *)
Theorem equal_radii_match_nearest_below lists prev_lists (r : R) :
  (forall d, In d lists \/ In d prev_lists -> snd d = r) ->
  exists st : speed_locals,
    speed_loop speed_body lists prev_lists = Ok st /\
    Forall (fun p => forall c, In c prev_lists ->
                     (fst p < fst c)%Z -> (snd p <= fst c)%Z)
      (closest_pairs st).
Proof.
  intros Hrad.
  destruct (speed_loop_returns lists prev_lists) as (st & Hrun & Hrec).
  exists st. split; [exact Hrun |].
  eapply Forall_impl; [| exact (recorded_closest Hrec)].
  intros p ([t tr] & c & Hz & [[Hin Hlt] Hmin] & ->) c' Hin' Hlt'.
  cbn [fst snd] in *.
  apply in_combine_l in Hz.
  specialize (Hmin c' (conj Hin' Hlt')).
  unfold Spec.euclid, Spec.center_row, Spec.radius in Hmin, Hlt.
  rewrite (Hrad t (or_introl Hz)), (Hrad c (or_intror Hin)),
    (Hrad c' (or_intror Hin')) in Hmin.
  replace (r - r) with 0 in Hmin by ring.
  rewrite Rsqr_0, !Rplus_0_r in Hmin.
  apply sqrt_le_0 in Hmin; try apply Rle_0_sqr.
  apply IZR_lt in Hlt. apply IZR_lt in Hlt'. apply le_IZR.
  unfold Rsqr in Hmin. nra.
Qed.

Lemma equal_radii_match_nearest_below_witness :
  exists st : speed_locals,
    speed_loop speed_body [(10%Z, 3); (12%Z, 3)] [(15%Z, 3); (17%Z, 3)]
    = Ok st /\
    Forall (fun p => forall c, In c [(15%Z, 3); (17%Z, 3)] ->
                     (fst p < fst c)%Z -> (snd p <= fst c)%Z)
      (closest_pairs st).
Proof.
  apply (@equal_radii_match_nearest_below
           [(10%Z, 3); (12%Z, 3)] [(15%Z, 3); (17%Z, 3)] 3).
  intros d [[<- | [<- | []]] | [<- | [<- | []]]]; reflexivity.
Defined.

(** X7.  The speed is proportional to the frame rate: at frame rate [f] it is
    [f] times the speed at one frame per second. *)
Theorem speed_proportional_to_frame_rate cls lists prev_lists :
  frame_rate cls <> 0%Z ->
  exists v1 : R,
    calculate_droplet_speed (fps 1) lists prev_lists = Ok v1 /\
    calculate_droplet_speed cls lists prev_lists
    = Ok (v1 * IZR (frame_rate cls)).
Proof.
  intros Hfr.
  destruct (speed_loop_returns lists prev_lists) as (st & Hrun & _).
  rewrite !(calculate_from_loop _ _ _ Hrun).
  rewrite (to_speed_ok cls _ Hfr).
  rewrite to_speed_ok by (cbn; lia).
  eexists. split; [reflexivity |]. cbn [frame_rate fps]. f_equal. lra.
Qed.

Lemma speed_proportional_to_frame_rate_witness :
  exists v1 : R,
    calculate_droplet_speed (fps 1) [(40%Z, 3)] [(50%Z, 3)] = Ok v1 /\
    calculate_droplet_speed (fps 1000) [(40%Z, 3)] [(50%Z, 3)]
    = Ok (v1 * IZR (frame_rate (fps 1000))).
Proof.
  apply (@speed_proportional_to_frame_rate (fps 1000)
           [(40%Z, 3)] [(50%Z, 3)]).
  cbn. lia.
Defined.

(** X8.  With a single previous droplet only the first current droplet is
    looked at: the speed is its row gap to the previous droplet, times
    conversion and frame rate, when the previous droplet is below it, and
    0 otherwise. *)
Theorem single_previous_droplet cls (target_pair reference_pair : droplet)
  (rest : list droplet) :
  frame_rate cls <> 0%Z ->
  calculate_droplet_speed cls (target_pair :: rest) [reference_pair]
  = Ok (if (fst target_pair <? fst reference_pair)%Z
        then IZR (fst reference_pair - fst target_pair) * conversion
             * IZR (frame_rate cls)
        else 0).
Proof.
  intros Hfr. unfold calculate_droplet_speed, speed_loop, Py.zip.
  cbn [combine]. rewrite combine_nil. cbn [for_each speed_body].
  unfold record_closest, filter_below. cbn [filter].
  destruct (fst target_pair <? fst reference_pair)%Z.
  - cbn [length Nat.eqb map Np.argmin Np.argmin_from bind Py.getitem
         nth_error closest_pairs speed_locals_init app].
    rewrite to_speed_ok by assumption. f_equal.
    unfold mean_distance, add_advances, Py.len.
    cbn [length Nat.ltb Nat.leb fold_left fst snd INR].
    rewrite Z.add_0_l. lra.
  - cbn [length Nat.eqb bind closest_pairs speed_locals_init].
    rewrite to_speed_ok by assumption. f_equal.
    unfold mean_distance. cbn [length Nat.ltb Nat.leb]. lra.
Qed.

Lemma single_previous_droplet_witness :
  calculate_droplet_speed (fps 1000) [(40%Z, 3); (7%Z, 1)] [(50%Z, 2)]
  = Ok (if (fst (40%Z, 3) <? fst (50%Z, 2))%Z
        then IZR (fst (50%Z, 2) - fst (40%Z, 3)) * conversion
             * IZR (frame_rate (fps 1000))
        else 0).
Proof.
  apply (@single_previous_droplet (fps 1000) (40%Z, 3) (50%Z, 2) [(7%Z, 1)]).
  cbn. lia.
Defined.

(** X9.  A negative frame rate is accepted, and the speed it gives is never
    positive. *)
Theorem negative_frame_rate_speed_nonpositive cls lists prev_lists :
  (frame_rate cls < 0)%Z ->
  exists v : R,
    calculate_droplet_speed cls lists prev_lists = Ok v /\ v <= 0.
Proof.
  intros Hfr.
  destruct (speed_loop_returns lists prev_lists) as (st & Hrun & Hrec).
  rewrite (calculate_from_loop cls _ _ Hrun), to_speed_ok by lia.
  eexists. split; [reflexivity |].
  assert (Hf : IZR (frame_rate cls) < 0) by (now apply IZR_lt).
  assert (Hc : 0 < conversion) by (unfold conversion; lra).
  assert (Hm : 0 <= Spec.mean_row_advance (closest_pairs st)).
  { destruct (closest_pairs st) as [| p ps] eqn:E.
    - cbn. lra.
    - pose proof (recorded_advances Hrec) as Hadv.
      pose proof (@mean_row_advance_lower (p :: ps) Hadv ltac:(discriminate)).
      lra. }
  assert (0 <= Spec.mean_row_advance (closest_pairs st) * conversion)
    by (apply Rmult_le_pos; lra).
  nra.
Qed.

Lemma negative_frame_rate_speed_nonpositive_witness :
  exists v : R,
    calculate_droplet_speed (fps (-1000)) [(40%Z, 3)] [(50%Z, 3)] = Ok v /\
    v <= 0.
Proof.
  apply (@negative_frame_rate_speed_nonpositive (fps (-1000))
           [(40%Z, 3)] [(50%Z, 3)]).
  cbn. lia.
Defined.

End EstimatorMore.

(* ================================================================== *)
(** * More on the jet measurement *)

Section JetMore.

Import Frame.

Context {cv : OpenCV}.

Open Scope R_scope.

(** [int(x)] lies on the same side of every integer as [x]. *)
Lemma int_le_of_le (x : R) (p : Z) : x <= IZR p -> (Py.int x <= p)%Z.
Proof.
  intros Hx. unfold Py.int.
  destruct (Rle_dec 0 x) as [Hpos | Hneg].
  - destruct (base_Int_part x) as [Hip _]. apply le_IZR. lra.
  - destruct (base_Int_part (- x)) as [_ Hip].
    assert (H : IZR (- Int_part (- x)) < IZR (p + 1)).
    { rewrite opp_IZR, plus_IZR. lra. }
    apply lt_IZR in H. lia.
Qed.

Lemma int_ge_of_ge (x : R) (p : Z) : IZR p <= x -> (p <= Py.int x)%Z.
Proof.
  intros Hx. unfold Py.int.
  destruct (Rle_dec 0 x) as [Hpos | Hneg].
  - destruct (base_Int_part x) as [_ Hip].
    assert (H : IZR (p - 1) < IZR (Int_part x)).
    { rewrite minus_IZR. lra. }
    apply lt_IZR in H. lia.
  - destruct (base_Int_part (- x)) as [Hip _].
    apply le_IZR. rewrite opp_IZR. lra.
Qed.

Lemma sumZ_le (xs : list Z) (p : Z) :
  Forall (fun x => (x <= p)%Z) xs ->
  (Np.sumZ xs <= Z.of_nat (length xs) * p)%Z.
Proof.
  unfold Np.sumZ. induction 1 as [| x xs Hx _ IH]; cbn [fold_right length].
  - lia.
  - rewrite Nat2Z.inj_succ. lia.
Qed.

Lemma sumZ_ge (xs : list Z) (p : Z) :
  Forall (fun x => (p <= x)%Z) xs ->
  (Z.of_nat (length xs) * p <= Np.sumZ xs)%Z.
Proof.
  unfold Np.sumZ. induction 1 as [| x xs Hx _ IH]; cbn [fold_right length].
  - lia.
  - rewrite Nat2Z.inj_succ. lia.
Qed.

Lemma meanZ_le (xs : list Z) (p : Z) :
  xs <> [] -> Forall (fun x => (x <= p)%Z) xs -> Spec.meanZ xs <= IZR p.
Proof.
  intros Hne Hall. unfold Spec.meanZ.
  assert (Hlen : 0 < INR (length xs)).
  { apply lt_0_INR. destruct xs; [contradiction | cbn; lia]. }
  apply Rmult_le_reg_r with (r := INR (length xs)); [exact Hlen |].
  unfold Rdiv. rewrite Rmult_assoc, Rinv_l, Rmult_1_r by lra.
  rewrite INR_IZR_INZ, <- mult_IZR. apply IZR_le.
  pose proof (sumZ_le Hall). lia.
Qed.

Lemma meanZ_ge (xs : list Z) (p : Z) :
  xs <> [] -> Forall (fun x => (p <= x)%Z) xs -> IZR p <= Spec.meanZ xs.
Proof.
  intros Hne Hall. unfold Spec.meanZ.
  assert (Hlen : 0 < INR (length xs)).
  { apply lt_0_INR. destruct xs; [contradiction | cbn; lia]. }
  apply Rmult_le_reg_r with (r := INR (length xs)); [exact Hlen |].
  unfold Rdiv. rewrite Rmult_assoc, Rinv_l, Rmult_1_r by lra.
  rewrite INR_IZR_INZ, <- mult_IZR. apply IZR_le.
  pose proof (sumZ_ge Hall). lia.
Qed.

(** In a sorted sequence cut in two, the left part lies below the right. *)
Lemma sorted_app_le (l r : list Z) :
  Sorted Z.le (l ++ r) -> forall a b, In a l -> In b r -> (a <= b)%Z.
Proof.
  intros Hs. apply Sorted_StronglySorted in Hs;
    [| intros x y z; apply Z.le_trans].
  induction l as [| x l IH]; intros a b Ha Hb; [contradiction |].
  cbn [app] in Hs. apply StronglySorted_inv in Hs. destruct Hs as [Hs Hx].
  destruct Ha as [<- | Ha].
  - rewrite Forall_forall in Hx. apply Hx. apply in_or_app. now right.
  - now apply IH.
Qed.

Lemma sorted_app_head_le (l r : list Z) (b : Z) :
  Sorted Z.le (l ++ b :: r) -> Forall (fun x => (b <= x)%Z) (b :: r).
Proof.
  induction l as [| x l IH]; cbn [app]; intros Hs.
  - apply Sorted_StronglySorted in Hs; [| intros x y z; apply Z.le_trans].
    apply StronglySorted_inv in Hs. destruct Hs as [_ Hall].
    constructor; [lia | exact Hall].
  - apply Sorted_inv in Hs. now apply IH.
Qed.

(** [np.int32] arithmetic is exact on results within range. *)
Lemma int32_in_range (z : Z) :
  (- 2147483648 <= z < 2147483648)%Z -> Np.int32 z = z.
Proof.
  intros Hz. unfold Np.int32.
  rewrite Z.mod_small by lia. lia.
Qed.

(** Beyond it the difference wraps: two points on the first and the last
    [np.int32] row are measured as a jet of length [-1]. *)
Example jet_length_wraps (img : Image) :
  jet_width_length img [(0, -2147483648); (1, 2147483647)]%Z
  = Ok (rectangle img (0, -2147483648)%Z (1, 2147483647)%Z, (1, -1)%Z).
Proof.
  rewrite jet_width_length_eval. cbv zeta.
  change (Np.sort (map fst [(0, -2147483648); (1, 2147483647)]%Z))
    with [0; 1]%Z.
  change (length [(0, -2147483648); (1, 2147483647)]%Z / 2)%nat with 1%nat.
  cbn [firstn skipn]. rewrite !meanZ_quot by discriminate.
  reflexivity.
Qed.

(** What [jet_width_length] returns on two points or more, with the two
    halves named. *)
Lemma jet_width_length_halves (img : Image) (cnt : contour) :
  (2 <= length cnt)%nat ->
  exists (img' : Image) (left right : list Z) (hi lo : Z),
    jet_width_length img cnt
    = Ok (img', ((Py.int (Spec.meanZ right) - Py.int (Spec.meanZ left))%Z,
                 Np.int32 (hi - lo))) /\
    left <> [] /\ right <> [] /\
    left ++ right = Np.sort (map fst cnt) /\
    length left = (length cnt / 2)%nat /\
    Spec.is_max hi (map snd cnt) /\ Spec.is_min lo (map snd cnt).
Proof.
  intros Hn.
  destruct cnt as [| p [| q rest]]; [cbn in Hn; lia | cbn in Hn; lia |].
  set (cnt := p :: q :: rest) in *.
  set (xs := Np.sort (map fst cnt)).
  set (k := (length cnt / 2)%nat).
  assert (Hlen : length xs = length cnt)
    by (unfold xs; now rewrite sort_length, length_map).
  assert (Hk : (1 <= k /\ k < length cnt)%nat).
  { unfold k. split.
    - apply Nat.div_le_lower_bound; lia.
    - apply Nat.div_lt; lia. }
  pose proof (jet_width_length_eval img p q rest) as Hev. cbv zeta in Hev.
  fold cnt in Hev. fold xs in Hev. fold k in Hev.
  eexists _, (firstn k xs), (skipn k xs), _, _.
  split; [exact Hev |].
  split.
  { intros E. apply (f_equal (@length Z)) in E.
    rewrite length_firstn, Hlen in E.
    change (length (@nil Z)) with 0%nat in E. lia. }
  split.
  { intros E. apply (f_equal (@length Z)) in E.
    rewrite length_skipn, Hlen in E.
    change (length (@nil Z)) with 0%nat in E. lia. }
  split; [apply firstn_skipn |].
  split; [rewrite length_firstn; lia |].
  split.
  - apply (amax_is_max (snd p) (map snd (q :: rest))).
  - apply (amin_is_min (snd p) (map snd (q :: rest))).
Qed.

(** X10.  [jet_width_length] returns exactly on boundaries of two points or
    more: with no point it raises [ValueError], with one [IndexError]. *)
Theorem jet_width_length_returns_iff (img : Image) (cnt : contour) :
  ((exists r, jet_width_length img cnt = Ok r) <-> (2 <= length cnt)%nat) /\
  (cnt = [] -> jet_width_length img cnt = Raise ValueError) /\
  (length cnt = 1%nat -> jet_width_length img cnt = Raise IndexError).
Proof.
  split; [split |].
  - intros [r Hr]. destruct cnt as [| p [| q rest]]; cbn in Hr |- *;
      try discriminate. lia.
  - intros Hn. destruct (@jet_width_length_halves img cnt Hn)
      as (img' & l & r & hi & lo & Hev & _).
    eexists. exact Hev.
  - split.
    + intros ->. reflexivity.
    + intros H1. destruct cnt as [| p [| q rest]]; cbn in H1; try lia.
      reflexivity.
Qed.

(** X11.  The jet width is never negative, and neither is the jet
    length when the rows of the boundary span less than [2^31] (as pixel
    rows do): within that span the [np.int32] difference does not wrap. *)
Theorem jet_width_length_nonnegative (img img' : Image) (cnt : contour)
  (width len : Z) :
  jet_width_length img cnt = Ok (img', (width, len)) ->
  (0 <= width)%Z /\
  ((forall p q, In p cnt -> In q cnt -> (snd p - snd q < 2147483648)%Z) ->
   (0 <= len)%Z).
Proof.
  intros Hrun.
  assert (Hn : (2 <= length cnt)%nat).
  { destruct cnt as [| p [| q rest]]; cbn in Hrun |- *; try discriminate.
    lia. }
  destruct (@jet_width_length_halves img cnt Hn)
    as (img2 & l & r & hi & lo & Hev & Hl & Hr & Hsplit & _ & Hmax & Hmin).
  rewrite Hev in Hrun. injection Hrun as _ <- <-.
  split.
  - pose proof (sort_sorted (map fst cnt)) as Hs. rewrite <- Hsplit in Hs.
    destruct r as [| b r]; [contradiction |].
    assert (Hlb : Forall (fun x => (x <= b)%Z) l).
    { apply Forall_forall. intros a Ha.
      apply (sorted_app_le _ _ Hs); [exact Ha | now left]. }
    assert (Hbr : Forall (fun x => (b <= x)%Z) (b :: r))
      by (now apply (sorted_app_head_le l)).
    pose proof (@int_le_of_le _ _ (meanZ_le Hl Hlb)).
    pose proof (@int_ge_of_ge _ _ (meanZ_ge Hr Hbr)).
    lia.
  - intros Hspan.
    destruct Hmax as [Hhi_in Hhi]. destruct Hmin as [Hlo_in _].
    specialize (Hhi lo Hlo_in).
    apply in_map_iff in Hhi_in. destruct Hhi_in as (ph & Eh & Hph).
    apply in_map_iff in Hlo_in. destruct Hlo_in as (pl & El & Hpl).
    pose proof (Hspan ph pl Hph Hpl) as Hlt. rewrite Eh, El in Hlt.
    rewrite int32_in_range by lia. lia.
Qed.

(** X12.  The jet width never exceeds the width of the bounding box: if all
    columns of the boundary lie between [lo] and [hi], the width is at
    most [hi - lo]. *)
Theorem jet_width_within_bounding_box (img img' : Image) (cnt : contour)
  (width len lo hi : Z) :
  jet_width_length img cnt = Ok (img', (width, len)) ->
  (forall p, In p cnt -> (lo <= fst p <= hi)%Z) ->
  (width <= hi - lo)%Z.
Proof.
  intros Hrun Hbox.
  assert (Hn : (2 <= length cnt)%nat).
  { destruct cnt as [| p [| q rest]]; cbn in Hrun |- *; try discriminate.
    lia. }
  destruct (@jet_width_length_halves img cnt Hn)
    as (img2 & l & r & hi' & lo' & Hev & Hl & Hr & Hsplit & _).
  rewrite Hev in Hrun. injection Hrun as _ <- _.
  assert (Hin : forall x, In x (l ++ r) -> (lo <= x <= hi)%Z).
  { intros x Hx. rewrite Hsplit in Hx.
    apply (Permutation_in _ (Permutation_sym (sort_perm _))) in Hx.
    apply in_map_iff in Hx. destruct Hx as (p & <- & Hp). now apply Hbox. }
  assert (Hlo : Forall (fun x => (lo <= x)%Z) l).
  { apply Forall_forall. intros x Hx. apply Hin, in_or_app. now left. }
  assert (Hhi : Forall (fun x => (x <= hi)%Z) r).
  { apply Forall_forall. intros x Hx. apply Hin, in_or_app. now right. }
  pose proof (@int_le_of_le _ _ (meanZ_le Hr Hhi)).
  pose proof (@int_ge_of_ge _ _ (meanZ_ge Hl Hlo)).
  lia.
Qed.

(** Two sorted arrangements of the same values are equal. *)
Lemma sorted_perm_unique (xs ys : list Z) :
  Sorted Z.le xs -> Sorted Z.le ys -> Permutation xs ys -> xs = ys.
Proof.
  intros Hx Hy.
  apply Sorted_StronglySorted in Hx; [| intros x y z; apply Z.le_trans].
  apply Sorted_StronglySorted in Hy; [| intros x y z; apply Z.le_trans].
  revert ys Hy. induction Hx as [| x xs Hxs IH Hhx]; intros ys Hy Hp.
  - apply Permutation_nil in Hp. now subst.
  - destruct Hy as [| y ys Hys Hhy].
    + apply Permutation_sym, Permutation_nil in Hp. discriminate.
    + assert (Exy : x = y).
      { rewrite Forall_forall in Hhx, Hhy.
        assert (Hxin : In x (y :: ys))
          by (apply (Permutation_in _ Hp); now left).
        assert (Hyin : In y (x :: xs))
          by (apply (Permutation_in _ (Permutation_sym Hp)); now left).
        destruct Hxin as [-> | Hxin]; [reflexivity |].
        destruct Hyin as [<- | Hyin]; [reflexivity |].
        specialize (Hhx y Hyin). specialize (Hhy x Hxin). lia. }
      subst y. f_equal. apply IH; [exact Hys |].
      now apply Permutation_cons_inv in Hp.
Qed.

Lemma sort_perm_eq (xs ys : list Z) :
  Permutation xs ys -> Np.sort xs = Np.sort ys.
Proof.
  intros Hp. apply sorted_perm_unique; try apply sort_sorted.
  rewrite <- (sort_perm xs), <- (sort_perm ys). exact Hp.
Qed.

Lemma app_eq_same_length {A : Type} (l1 l2 r1 r2 : list A) :
  l1 ++ r1 = l2 ++ r2 -> length l1 = length l2 -> l1 = l2 /\ r1 = r2.
Proof.
  revert l2. induction l1 as [| a l1 IH]; intros [| b l2] E Hlen;
    cbn in Hlen; try discriminate.
  - split; [reflexivity | exact E].
  - cbn [app] in E. injection E as -> E.
    destruct (IH l2 E) as [-> ->]; [lia |]. split; reflexivity.
Qed.

Lemma is_max_unique (a b : Z) (xs ys : list Z) :
  Permutation xs ys -> Spec.is_max a xs -> Spec.is_max b ys -> a = b.
Proof.
  intros Hp [Ha Hale] [Hb Hble].
  apply (Permutation_in _ Hp) in Ha.
  apply (Permutation_in _ (Permutation_sym Hp)) in Hb.
  specialize (Hale b Hb). specialize (Hble a Ha). lia.
Qed.

Lemma is_min_unique (a b : Z) (xs ys : list Z) :
  Permutation xs ys -> Spec.is_min a xs -> Spec.is_min b ys -> a = b.
Proof.
  intros Hp [Ha Hale] [Hb Hble].
  apply (Permutation_in _ Hp) in Ha.
  apply (Permutation_in _ (Permutation_sym Hp)) in Hb.
  specialize (Hale b Hb). specialize (Hble a Ha). lia.
Qed.

(** X13.  The measurement does not depend on where the boundary starts or in
    which order its points come: a reordered boundary gives the same width
    and length (or the same exception). *)
Theorem jet_measurement_order_independent (img1 img2 : Image)
  (cnt1 cnt2 : contour) :
  Permutation cnt1 cnt2 ->
  Shape.measurement (jet_width_length img1 cnt1)
  = Shape.measurement (jet_width_length img2 cnt2).
Proof.
  intros Hp.
  pose proof (Permutation_length Hp) as Hlen.
  destruct (le_lt_dec 2 (length cnt1)) as [Hn | Hn].
  - assert (Hn2 : (2 <= length cnt2)%nat) by lia.
    destruct (@jet_width_length_halves img1 cnt1 Hn)
      as (i1 & l1 & r1 & hi1 & lo1 & -> & _ & _ & Hs1 & Hk1 & Hmax1 & Hmin1).
    destruct (@jet_width_length_halves img2 cnt2 Hn2)
      as (i2 & l2 & r2 & hi2 & lo2 & -> & _ & _ & Hs2 & Hk2 & Hmax2 & Hmin2).
    cbn [Shape.measurement bind].
    assert (Hcols : Np.sort (map fst cnt1) = Np.sort (map fst cnt2))
      by (apply sort_perm_eq; now apply Permutation_map).
    assert (Hrows : Permutation (map snd cnt1) (map snd cnt2))
      by (now apply Permutation_map).
    rewrite <- Hs1, <- Hs2 in Hcols.
    assert (El : l1 = l2 /\ r1 = r2).
    { apply app_eq_same_length; [exact Hcols |].
      now rewrite Hk1, Hk2, Hlen. }
    destruct El as [-> ->].
    rewrite (is_max_unique Hrows Hmax1 Hmax2).
    rewrite (is_min_unique Hrows Hmin1 Hmin2).
    reflexivity.
  - destruct cnt1 as [| p1 [| q1 rest1]]; cbn in Hn; try lia.
    + apply Permutation_nil in Hp. subst cnt2. reflexivity.
    + apply Permutation_length_1_inv in Hp. subst cnt2. reflexivity.
Qed.

(** X14.  On the four corners of an upright rectangle less than [2^31]
    rows high the measurement is exact: the width and the height of the
    rectangle.  (At [2^31] rows or more the [np.int32] height wraps.) *)
Theorem jet_of_rectangle_corners (img : Image) (x0 x1 y0 y1 : Z) :
  (x0 <= x1)%Z -> (y0 <= y1)%Z -> (y1 - y0 < 2147483648)%Z ->
  jet_width_length img [(x0, y0); (x1, y0); (x1, y1); (x0, y1)]
  = Ok (rectangle img (x0, y0) (x1, y1), ((x1 - x0)%Z, (y1 - y0)%Z)).
Proof.
  intros Hx Hy Hspan. rewrite jet_width_length_eval. cbv zeta.
  match goal with |- context [Np.sort ?cols] =>
    assert (Hsort : Np.sort cols = [x0; x0; x1; x1])
  end.
  { apply sorted_perm_unique.
    - apply sort_sorted.
    - repeat constructor; lia.
    - rewrite <- sort_perm. cbn [map fst].
      apply Permutation_sym.
      apply perm_skip.
      change [x1; x1; x0] with ([x1; x1] ++ [x0]).
      apply Permutation_cons_append. }
  rewrite Hsort.
  change (length [(x0, y0); (x1, y0); (x1, y1); (x0, y1)] / 2)%nat with 2%nat.
  cbn [firstn skipn map snd].
  rewrite !meanZ_quot by discriminate.
  unfold Np.sumZ, Np.amax, Np.amin. cbn [fold_right fold_left length].
  replace (x1 + (x1 + 0))%Z with (x1 * 2)%Z by lia.
  replace (x0 + (x0 + 0))%Z with (x0 * 2)%Z by lia.
  change (Z.of_nat 2) with 2%Z.
  rewrite !Z.quot_mul by lia.
  replace (Z.min (Z.min (Z.min y0 y0) y1) y1) with y0 by lia.
  replace (Z.max (Z.max (Z.max y0 y0) y1) y1) with y1 by lia.
  rewrite int32_in_range by lia. reflexivity.
Qed.

End JetMore.

(* ================================================================== *)
(** * More on the frame pass *)

Section PassMore.

Import Frame.

Context {cv : OpenCV}.

Open Scope R_scope.

(** The width and length measured do not depend on the canvas. *)
Lemma jet_measurement_canvas (img1 img2 : Image) (cnt : contour) :
  Shape.measurement (jet_width_length img1 cnt)
  = Shape.measurement (jet_width_length img2 cnt).
Proof.
  destruct cnt as [| p [| q rest]]; try reflexivity.
  rewrite !jet_width_length_eval. reflexivity.
Qed.

Lemma last_some_cons {A : Type} (a : A) (xs : list A) :
  last (map Some (a :: xs)) None
  = match last (map Some xs) None with
    | Some c => Some c
    | None => Some a
    end.
Proof.
  revert a. induction xs as [| x xs IH]; intros a.
  - reflexivity.
  - change (last (map Some (a :: x :: xs)) None)
      with (last (map Some (x :: xs)) None).
    rewrite (IH x).
    destruct (last (map Some xs) None); reflexivity.
Qed.

Lemma last_jet_cons (cnt : contour) (contours : list contour) :
  Shape.last_jet (cnt :: contours)
  = match Shape.last_jet contours with
    | Some c => Some c
    | None => if Shape.is_jet cnt then Some cnt else None
    end.
Proof.
  unfold Shape.last_jet. cbn [filter].
  destruct (Shape.is_jet cnt).
  - apply last_some_cons.
  - destruct (last (map Some (filter Shape.is_jet contours)) None);
      reflexivity.
Qed.

(** One iteration that returns: what it does to the droplet list and to
    the jet measurement. *)
Lemma pass_body_effect (st st' : pass_locals) (cnt : contour) :
  pass_body st cnt = Ok st' ->
  droplet_list st'
  = droplet_list st
    ++ (if Spec.is_droplet cnt then [Shape.droplet_entry cnt] else []) /\
  (if Shape.is_jet cnt
   then forall img, Shape.measurement (jet_width_length img cnt)
                    = Ok (jet_width st', jet_length st')
   else jet_width st' = jet_width st /\ jet_length st' = jet_length st).
Proof.
  unfold Spec.is_droplet, Shape.is_jet.
  destruct (Req_dec_T (m00 (moments cnt)) 0) as [Hz | Hnz].
  - rewrite pass_body_degenerate by assumption.
    intros E. injection E as <-. rewrite app_nil_r. repeat split.
  - destruct (Req_dec_T (arcLength cnt) 0) as [Hp | Hp].
    + unfold pass_body, detect_roundness.
      destruct (Req_dec_T (m00 (moments cnt)) 0) as [E | _]; [contradiction |].
      rewrite !(truediv_ok _ Hnz). cbn [bind].
      rewrite Hp. replace (0 ^ 2) with 0 by ring.
      rewrite truediv_zero. discriminate.
    + rewrite pass_body_measured by assumption.
      unfold droplet_branch, jet_branch.
      destruct (Rge_dec (Spec.roundness cnt) (5 / 10)) as [Hge | Hlt].
      * destruct (Rle_dec (Spec.roundness cnt) (3 / 10)) as [Hle | _]; [lra |].
        intros E. injection E as <-. cbn. repeat split.
      * destruct (Rle_dec (Spec.roundness cnt) (3 / 10)) as [Hle | _].
        -- destruct (jet_width_length (canvas st) cnt)
             as [[canvas' [width len]] | e] eqn:Hj; cbn [bind];
             [| discriminate].
           intros E. injection E as <-.
           cbn [droplet_list jet_width jet_length].
           rewrite app_nil_r. split; [reflexivity |].
           intros img. rewrite (jet_measurement_canvas img (canvas st)), Hj.
           reflexivity.
        -- intros E. injection E as <-. rewrite app_nil_r. repeat split.
Qed.

Lemma pass_loop_effect (contours : list contour) :
  forall st st' : pass_locals,
  for_each pass_body contours st = Ok st' ->
  droplet_list st'
  = droplet_list st
    ++ map Shape.droplet_entry (filter Spec.is_droplet contours) /\
  match Shape.last_jet contours with
  | Some cnt => forall img, Shape.measurement (jet_width_length img cnt)
                            = Ok (jet_width st', jet_length st')
  | None => jet_width st' = jet_width st /\ jet_length st' = jet_length st
  end.
Proof.
  induction contours as [| cnt contours IH]; intros st st'; cbn [for_each].
  - intros E. injection E as <-. cbn. rewrite app_nil_r. repeat split.
  - destruct (pass_body st cnt) as [s1 | e] eqn:Hrun1; cbn [bind];
      [| discriminate].
    intros Hrun2.
    destruct (pass_body_effect _ _ Hrun1) as [Hd1 Hj1].
    destruct (IH _ _ Hrun2) as [Hd2 Hj2].
    split.
    + rewrite Hd2, Hd1, <- app_assoc. f_equal. cbn [filter].
      destruct (Spec.is_droplet cnt); reflexivity.
    + rewrite last_jet_cons.
      destruct (Shape.last_jet contours) as [c |]; [exact Hj2 |].
      destruct Hj2 as [Hw Hl]. rewrite Hw, Hl.
      destruct (Shape.is_jet cnt); [exact Hj1 | exact Hj1].
Qed.

(** X15.  The droplet list a frame pass returns holds, in contour order, one
    entry [(center_row, radius)] for each droplet-classified shape and
    nothing else. *)
Theorem droplet_list_in_contour_order (img : Image)
  (contours : list contour) (out : pass_output) :
  detect_in_contours img contours = Ok out ->
  out_droplet_list out
  = map (fun cnt => (Spec.center_row_of cnt, Spec.radius_of cnt))
      (filter Spec.is_droplet contours).
Proof.
  unfold detect_in_contours.
  destruct (for_each pass_body contours (pass_init img)) as [st | e] eqn:Hrun;
    cbn [bind]; [| discriminate].
  intros E. injection E as <-.
  destruct (pass_loop_effect _ _ Hrun) as [Hd _].
  cbn [pass_finish out_droplet_list]. rewrite Hd. reflexivity.
Qed.

(** X16.  When several shapes are jets the last one wins: the pass returns the
    width and length of the last jet-classified contour, and [0, 0] when
    there is none. *)
Theorem last_jet_wins (img : Image) (contours : list contour)
  (out : pass_output) :
  detect_in_contours img contours = Ok out ->
  match Shape.last_jet contours with
  | Some cnt => forall canvas,
                Shape.measurement (jet_width_length canvas cnt)
                = Ok (out_jet_width out, out_jet_length out)
  | None => out_jet_width out = 0%Z /\ out_jet_length out = 0%Z
  end.
Proof.
  unfold detect_in_contours.
  destruct (for_each pass_body contours (pass_init img)) as [st | e] eqn:Hrun;
    cbn [bind]; [| discriminate].
  intros E. injection E as <-.
  destruct (pass_loop_effect _ _ Hrun) as [_ Hj].
  cbn [pass_finish out_jet_width out_jet_length].
  destruct (Shape.last_jet contours); exact Hj.
Qed.

(** X17.  A degenerate shape (zeroth moment 0) is skipped: the pass returns
    what it returns on the contour list without it. *)
Theorem degenerate_shape_ignored (img : Image) (before after : list contour)
  (cnt : contour) :
  m00 (moments cnt) = 0 ->
  detect_in_contours img (before ++ cnt :: after)
  = detect_in_contours img (before ++ after).
Proof.
  intros Hz. unfold detect_in_contours.
  rewrite !for_each_app. f_equal.
  destruct (for_each pass_body before (pass_init img)) as [s | e];
    cbn [bind for_each]; [| reflexivity].
  rewrite pass_body_degenerate by assumption. reflexivity.
Qed.

Lemma sumR_bounds (xs : list R) (m M : R) :
  Forall (fun x => m <= x <= M) xs ->
  INR (length xs) * m <= Np.sumR xs <= INR (length xs) * M.
Proof.
  unfold Np.sumR. induction 1 as [| x xs Hx _ IH].
  - cbn. lra.
  - change (length (x :: xs)) with (S (length xs)). rewrite S_INR.
    cbn [fold_right]. lra.
Qed.

(** X18.  The average radius lies between the least and the greatest droplet
    radius of the frame. *)
Theorem average_radius_between_extremes (img : Image)
  (contours : list contour) (out : pass_output) (m M : R) :
  detect_in_contours img contours = Ok out ->
  filter Spec.is_droplet contours <> [] ->
  (forall cnt, In cnt contours -> Spec.is_droplet cnt = true ->
               m <= Spec.radius_of cnt <= M) ->
  m <= out_radius_avg out <= M.
Proof.
  unfold detect_in_contours.
  destruct (for_each pass_body contours (pass_init img)) as [st | e] eqn:Hrun;
    cbn [bind]; [| discriminate].
  intros E Hne Hrange. injection E as <-.
  destruct (pass_loop_counts _ _ Hrun) as [Hc Hr].
  cbn [pass_init circles_num radius_sum] in Hc, Hr.
  unfold pass_finish. cbn [out_radius_avg]. rewrite Hc, Hr.
  set (ds := filter Spec.is_droplet contours) in *.
  assert (Hall : Forall (fun x => m <= x <= M) (map Spec.radius_of ds)).
  { apply Forall_forall. intros x Hx. apply in_map_iff in Hx.
    destruct Hx as (cnt & <- & Hin). unfold ds in Hin.
    apply filter_In in Hin. destruct Hin as [Hin Hd]. now apply Hrange. }
  pose proof (sumR_bounds Hall) as Hsum. rewrite length_map in Hsum.
  assert (Hpos : (0 < length ds)%nat)
    by (destruct ds; [contradiction | cbn; lia]).
  replace (0 <? 0 + Z.of_nat (length ds))%Z with true
    by (symmetry; apply Z.ltb_lt; lia).
  rewrite Z.add_0_l, <- INR_IZR_INZ, Rplus_0_l.
  assert (Hlen : 0 < INR (length ds)) by (now apply lt_0_INR).
  split.
  - apply Rmult_le_reg_r with (r := INR (length ds)); [exact Hlen |].
    unfold Rdiv. rewrite Rmult_assoc, Rinv_l by lra. lra.
  - apply Rmult_le_reg_r with (r := INR (length ds)); [exact Hlen |].
    unfold Rdiv. rewrite Rmult_assoc, Rinv_l by lra. lra.
Qed.

(** X19.  The radius [droplet_rad] computes is that of the disk with the
    shape's area: [pi * radius^2 = area]; the count goes up by one and the
    sum by that radius. *)
Theorem droplet_rad_disk_area (img : Image) (area : R) (center_x center_y : Z)
  (count : Z) (sum : R) :
  0 <= area ->
  let '(_, (count', sum', radius)) :=
    droplet_rad img area center_x center_y count sum in
  PI * radius ^ 2 = area /\ 0 <= radius /\
  count' = (count + 1)%Z /\ sum' = sum + radius.
Proof.
  intros Ha. cbn [droplet_rad].
  assert (Hq : 0 <= area / PI).
  { apply Rmult_le_pos; [exact Ha |]. left. apply Rinv_0_lt_compat, PI_RGT_0. }
  split; [| split; [apply sqrt_pos | split; reflexivity]].
  replace (sqrt (area / PI) ^ 2) with (sqrt (area / PI) * sqrt (area / PI))
    by ring.
  rewrite sqrt_sqrt by exact Hq. field. apply PI_neq0.
Qed.

End PassMore.

(* ================================================================== *)
(** * Preprocessing a video *)

Section Preprocess.

Import Frame Video.

Context {cv : OpenCV}.

Open Scope R_scope.

(** One iteration of the loop of [preprocess] that returns. *)
Lemma preprocess_body_ok (cls : class_attrs) (threshold_arg : Z)
  (st st' : preprocess_locals) :
  preprocess_body cls threshold_arg st = Ok st' ->
  exists (f : Image) (vid' : list Image) (out : pass_output) (speed' : R),
    vid st = f :: vid' /\
    analyse cls f threshold_arg = Ok out /\
    match prev_droplet_list st with
    | None => speed' = droplet_speed st
    | Some p => calculate_droplet_speed cls (out_droplet_list out) p = Ok speed'
    end /\
    prev_droplet_list st' = Some (out_droplet_list out) /\
    droplet_speed st' = speed' /\
    vid st' = vid' /\
    frame_number (self_video st') = (frame_number (self_video st) + 1)%Z /\
    max_frames (self_video st') = max_frames (self_video st) /\
    information_array (self_video st')
    = information_array (self_video st)
      ++ [{| info_f := f; info_cimg := out_cimg out;
             info_radius := out_radius_avg out;
             info_droplet_speed := speed';
             info_jet_width := out_jet_width out;
             info_jet_length := out_jet_length out;
             info_frame_number := frame_number (self_video st) + 1 |}].
Proof.
  unfold preprocess_body, analyse.
  destruct (vid st) as [| f vid']; cbn [read new_frame bind];
    [discriminate |].
  destruct (Frame.init cls f threshold_arg) as [frame | e] eqn:Hinit;
    cbn [bind]; [| discriminate].
  destruct (detect_droplets_and_jet frame) as [out | e] eqn:Hdet; cbn [bind];
    [| discriminate].
  assert (Han : (frame <- Frame.init cls f threshold_arg ;;
                 detect_droplets_and_jet frame) = Ok out)
    by (rewrite Hinit; exact Hdet).
  destruct (prev_droplet_list st) as [p |].
  - destruct (calculate_droplet_speed cls (out_droplet_list out) p)
      as [speed' | e] eqn:Hs; cbn [bind]; [| discriminate].
    intros E. injection E as <-.
    exists f, vid', out, speed'. cbn.
    repeat split; try reflexivity; assumption.
  - cbn [bind]. intros E. injection E as <-.
    exists f, vid', out, (droplet_speed st). cbn.
    repeat split; try reflexivity; assumption.
Qed.

(** The loop of [preprocess], from any state, when it returns. *)
Lemma preprocess_loop_ok (cls : class_attrs) (threshold_arg : Z) (fuel : nat) :
  forall st st' : preprocess_locals,
  (Z.to_nat (max_frames (self_video st) - frame_number (self_video st))
   <= fuel)%nat ->
  preprocess_loop cls threshold_arg fuel st = Ok st' ->
  exists new : list info,
    information_array (self_video st')
    = information_array (self_video st) ++ new /\
    length new
    = Z.to_nat (max_frames (self_video st) - frame_number (self_video st)) /\
    frame_number (self_video st')
    = Z.max (frame_number (self_video st)) (max_frames (self_video st)) /\
    max_frames (self_video st') = max_frames (self_video st) /\
    processed_from cls threshold_arg (frame_number (self_video st))
      (prev_droplet_list st) (droplet_speed st) (vid st) new.
Proof.
  induction fuel as [| fuel IH]; intros st st' Hfuel; cbn [preprocess_loop];
    destruct (frame_number (self_video st) <? max_frames (self_video st))%Z
      eqn:Hcond.
  - apply Z.ltb_lt in Hcond. lia.
  - apply Z.ltb_ge in Hcond. intros E. injection E as <-.
    exists []. rewrite app_nil_r. cbn [length processed_from].
    repeat split; lia.
  - apply Z.ltb_lt in Hcond.
    destruct (preprocess_body cls threshold_arg st) as [s1 | e] eqn:Hbody;
      cbn [bind]; [| discriminate].
    intros Hrun.
    destruct (preprocess_body_ok _ _ _ Hbody)
      as (f & vid' & out & speed' & Hvid & Han & Hsp & Hprev & Hds & Hv
          & Hfn & Hmax & Hinfo).
    destruct (IH s1 st') as (new & Hi & Hlen & Hf & Hm & Hchain);
      [rewrite Hfn, Hmax; lia | exact Hrun |].
    eexists (_ :: new). split; [| split; [| split; [| split]]].
    + rewrite Hi, Hinfo, <- app_assoc. reflexivity.
    + cbn [length]. rewrite Hlen, Hfn, Hmax. lia.
    + rewrite Hf, Hfn, Hmax. lia.
    + rewrite Hm, Hmax. reflexivity.
    + cbn [processed_from]. exists f, vid', out. cbn.
      rewrite Hfn, Hprev, Hds, Hv in Hchain.
      repeat split; assumption.
  - apply Z.ltb_ge in Hcond. intros E. injection E as <-.
    exists []. rewrite app_nil_r. cbn [length processed_from].
    repeat split; lia.
Qed.

Lemma ws_write_ok (ws ws' : worksheet) (row col : Z) (text : cell) :
  ws_write ws row col text = Ok ws' ->
  (0 <= row <= 65535)%Z /\ ws' = ws ++ [(row, col, text)].
Proof.
  unfold ws_write.
  destruct ((0 <=? row) && (row <=? 65535))%Z eqn:Hr; [| discriminate].
  intros E. injection E as <-.
  apply andb_prop in Hr. destruct Hr as [H0 H1].
  apply Z.leb_le in H0. apply Z.leb_le in H1. split; [lia | reflexivity].
Qed.

Lemma ws_write_in_range (ws : worksheet) (row col : Z) (text : cell) :
  (0 <= row <= 65535)%Z ->
  ws_write ws row col text = Ok (ws ++ [(row, col, text)]).
Proof.
  intros [H0 H1]. unfold ws_write.
  apply Z.leb_le in H0. apply Z.leb_le in H1. rewrite H0, H1. reflexivity.
Qed.

Lemma save_row_in_range (ws : worksheet) (e : info) :
  (0 <= info_frame_number e <= 65535)%Z ->
  save_row ws e = Ok (ws ++ row_writes e).
Proof.
  intros Hr. unfold save_row.
  repeat (rewrite (ws_write_in_range _ _ _ Hr); cbn [bind]).
  rewrite <- !app_assoc. reflexivity.
Qed.

Lemma save_row_ok (ws ws' : worksheet) (e : info) :
  save_row ws e = Ok ws' ->
  (0 <= info_frame_number e <= 65535)%Z /\ ws' = ws ++ row_writes e.
Proof.
  intros Hrun.
  assert (Hr : (0 <= info_frame_number e <= 65535)%Z).
  { unfold save_row in Hrun.
    destruct (ws_write ws (info_frame_number e) 0
                (str_int (info_frame_number e))) as [w1 | err] eqn:H1;
      [| discriminate].
    now apply ws_write_ok in H1. }
  split; [exact Hr |].
  rewrite (save_row_in_range ws e Hr) in Hrun. now injection Hrun as <-.
Qed.

Lemma save_rows_ok (es : list info) :
  forall ws ws' : worksheet,
  for_each save_row es ws = Ok ws' ->
  Forall (fun e => (0 <= info_frame_number e <= 65535)%Z) es /\
  ws' = ws ++ flat_map row_writes es.
Proof.
  induction es as [| e es IH]; intros ws ws'; cbn [for_each flat_map].
  - intros E. injection E as <-. rewrite app_nil_r. split; [constructor | easy].
  - destruct (save_row ws e) as [w1 | err] eqn:H1; cbn [bind]; [| discriminate].
    intros Hrest. apply save_row_ok in H1. destruct H1 as [Hr ->].
    destruct (IH _ _ Hrest) as [Hall ->].
    split; [now constructor | now rewrite <- app_assoc].
Qed.

Lemma save_rows_in_range (es : list info) :
  forall ws : worksheet,
  Forall (fun e => (0 <= info_frame_number e <= 65535)%Z) es ->
  for_each save_row es ws = Ok (ws ++ flat_map row_writes es).
Proof.
  induction es as [| e es IH]; intros ws Hall; cbn [for_each flat_map].
  - now rewrite app_nil_r.
  - apply Forall_cons_iff in Hall. destruct Hall as [Hr Hall].
    rewrite (save_row_in_range ws e Hr). cbn [bind].
    rewrite (IH _ Hall), <- app_assoc. reflexivity.
Qed.

(** [save_data] when it returns: every row was in range, the file was
    written, and only [saved] changes. *)
Lemma save_data_ok (wbwt_save : worksheet -> result unit) (self self' : video) :
  save_data wbwt_save self = Ok self' ->
  let ws := header ++ flat_map row_writes (information_array self) in
  Forall (fun e => (0 <= info_frame_number e <= 65535)%Z)
    (information_array self) /\
  wbwt_save ws = Ok tt /\ self' = set_saved self ws.
Proof.
  unfold save_data. change (write_header []) with (Ok header). cbn [bind].
  destruct (for_each save_row (information_array self) header)
    as [ws | err] eqn:Hrows; cbn [bind]; [| discriminate].
  apply save_rows_ok in Hrows. destruct Hrows as [Hall ->].
  destruct (wbwt_save (header ++ flat_map row_writes (information_array self)))
    as [[] | err] eqn:Hsave; cbn [bind]; [| discriminate].
  intros E. injection E as <-. cbv zeta. repeat split; assumption.
Qed.

Lemma save_data_returns (wbwt_save : worksheet -> result unit) (self : video) :
  (forall ws, wbwt_save ws = Ok tt) ->
  Forall (fun e => (0 <= info_frame_number e <= 65535)%Z)
    (information_array self) ->
  exists self' : video, save_data wbwt_save self = Ok self'.
Proof.
  intros Hdisk Hall. unfold save_data.
  change (write_header []) with (Ok header). cbn [bind].
  rewrite (save_rows_in_range _ Hall). cbn [bind].
  rewrite Hdisk. cbn [bind]. eexists. reflexivity.
Qed.

Lemma preprocess_ok (cls : class_attrs)
  (wbwt_save : worksheet -> result unit) (cap : capture) (self self' : video)
  (threshold_arg : Z) :
  preprocess cls wbwt_save cap self threshold_arg = Ok self' ->
  exists new : list info,
    information_array self' = information_array self ++ new /\
    length new = Z.to_nat (frame_count cap - frame_number self) /\
    frame_number self' = Z.max (frame_number self) (frame_count cap) /\
    max_frames self' = frame_count cap /\
    processed_from cls threshold_arg (frame_number self) None 0
      (frames cap) new.
Proof.
  unfold preprocess.
  match goal with |- context [preprocess_loop _ _ ?fu ?s0] =>
    destruct (preprocess_loop cls threshold_arg fu s0) as [st | e] eqn:Hloop
  end; cbn [bind]; [| discriminate].
  intros E. apply save_data_ok in E. destruct E as (_ & _ & ->).
  apply preprocess_loop_ok in Hloop; [| cbn; lia].
  destruct Hloop as (new & Hi & Hlen & Hf & Hm & Hchain).
  cbn in Hi, Hlen, Hf, Hm, Hchain.
  exists new. cbn. repeat split; assumption.
Qed.

Lemma processed_from_numbers (cls : class_attrs) (threshold_arg : Z)
  (new : list info) :
  forall (n : Z) prev speed0 vid (k : nat) (e : info),
  processed_from cls threshold_arg n prev speed0 vid new ->
  nth_error new k = Some e ->
  info_frame_number e = (n + Z.of_nat k + 1)%Z /\
  nth_error vid k = Some (info_f e).
Proof.
  induction new as [| e0 new IH]; intros n prev speed0 vid k e Hchain Hk.
  - destruct k; discriminate.
  - cbn [processed_from] in Hchain.
    destruct Hchain as (f & vid' & out & -> & _ & Hf & _ & _ & _ & _ & Hn & _
                        & Hrest).
    destruct k as [| k].
    + cbn in Hk. injection Hk as <-. cbn. split; [lia | now rewrite Hf].
    + cbn [nth_error] in Hk |- *.
      edestruct IH as [Hnum Hnth]; [exact Hrest | exact Hk |].
      split; [lia | exact Hnth].
Qed.

(** X20.  [preprocess] adds one entry per frame still to process, numbered
    consecutively from [frame_number + 1] up to the frame count, each
    holding the frame read at its turn; it leaves [frame_number] at the
    frame count. *)
Theorem preprocess_numbers_entries (cls : class_attrs)
  (wbwt_save : worksheet -> result unit) (cap : capture)
  (self self' : video) (threshold_arg : Z) :
  preprocess cls wbwt_save cap self threshold_arg = Ok self' ->
  exists new : list info,
    information_array self' = information_array self ++ new /\
    length new = Z.to_nat (frame_count cap - frame_number self) /\
    (forall (k : nat) (e : info),
       nth_error new k = Some e ->
       info_frame_number e = (frame_number self + Z.of_nat k + 1)%Z /\
       nth_error (frames cap) k = Some (info_f e)) /\
    frame_number self' = Z.max (frame_number self) (frame_count cap).
Proof.
  intros Hrun.
  destruct (preprocess_ok _ _ _ _ _ Hrun)
    as (new & Hi & Hlen & Hf & _ & Hchain).
  exists new. split; [exact Hi |]. split; [exact Hlen |].
  split; [| exact Hf].
  intros k e Hk. eapply processed_from_numbers; eassumption.
Qed.

Lemma processed_from_speeds (cls : class_attrs) (threshold_arg : Z)
  (new : list info) :
  forall (n : Z) prev speed0 vid (k : nat) (e e' : info),
  processed_from cls threshold_arg n prev speed0 vid new ->
  nth_error new k = Some e -> nth_error new (S k) = Some e' ->
  exists out out' : pass_output,
    analyse cls (info_f e) threshold_arg = Ok out /\
    analyse cls (info_f e') threshold_arg = Ok out' /\
    calculate_droplet_speed cls (out_droplet_list out') (out_droplet_list out)
    = Ok (info_droplet_speed e').
Proof.
  induction new as [| e0 new IH]; intros n prev speed0 vid k e e' Hchain Hk Hk'.
  - destruct k; discriminate.
  - cbn [processed_from] in Hchain.
    destruct Hchain as (f & vid' & out & -> & Han & Hf & _ & _ & _ & _ & _ & _
                        & Hrest).
    destruct k as [| k].
    + cbn in Hk. injection Hk as <-.
      destruct new as [| e1 new]; [discriminate |].
      cbn in Hk'. injection Hk' as <-.
      cbn [processed_from] in Hrest.
      destruct Hrest as (f1 & vid1 & out1 & _ & Han1 & Hf1 & _ & _ & _ & _ & _
                         & Hsp & _).
      exists out, out1. rewrite Hf, Hf1. repeat split; assumption.
    + cbn [nth_error] in Hk, Hk'. eapply IH; eassumption.
Qed.

(** X21.  The first entry [preprocess] adds has speed 0, and every later one
    the speed the estimator gives for its frame's droplet list against
    the droplet list of the frame just before it. *)
Theorem preprocess_threads_droplet_lists (cls : class_attrs)
  (wbwt_save : worksheet -> result unit) (cap : capture)
  (self self' : video) (threshold_arg : Z) :
  preprocess cls wbwt_save cap self threshold_arg = Ok self' ->
  exists new : list info,
    information_array self' = information_array self ++ new /\
    (forall e : info, nth_error new 0 = Some e -> info_droplet_speed e = 0) /\
    (forall (k : nat) (e e' : info),
       nth_error new k = Some e -> nth_error new (S k) = Some e' ->
       exists out out' : pass_output,
         analyse cls (info_f e) threshold_arg = Ok out /\
         analyse cls (info_f e') threshold_arg = Ok out' /\
         calculate_droplet_speed cls
           (out_droplet_list out') (out_droplet_list out)
         = Ok (info_droplet_speed e')).
Proof.
  intros Hrun.
  destruct (preprocess_ok _ _ _ _ _ Hrun) as (new & Hi & _ & _ & _ & Hchain).
  exists new. split; [exact Hi |]. split.
  - intros e He. destruct new as [| e0 new]; [discriminate |].
    cbn in He. injection He as <-. cbn [processed_from] in Hchain.
    destruct Hchain as (f & vid' & out & _ & _ & _ & _ & _ & _ & _ & _ & Hsp
                        & _).
    exact Hsp.
  - intros k e e' Hk Hk'.
    eapply processed_from_speeds; eassumption.
Qed.

Lemma analyse_unfold (cls : class_attrs) (f : Image) (threshold_arg : Z)
  (out : pass_output) :
  analyse cls f threshold_arg = Ok out ->
  (frame <- new_frame cls (Some f) threshold_arg ;;
   detect_droplets_and_jet frame) = Ok out.
Proof. intros H. exact H. Qed.

Lemma estimator_returns (cls : class_attrs) (lists prev_lists : list droplet) :
  frame_rate cls <> 0%Z ->
  exists v : R, calculate_droplet_speed cls lists prev_lists = Ok v.
Proof.
  intros Hfr.
  destruct (speed_loop_returns lists prev_lists) as (st & Hrun & _).
  rewrite (calculate_from_loop cls _ _ Hrun). eexists. now apply to_speed_ok.
Qed.

Lemma estimator_raises (cls : class_attrs) (lists prev_lists : list droplet) :
  frame_rate cls = 0%Z ->
  calculate_droplet_speed cls lists prev_lists = Raise ZeroDivisionError.
Proof.
  intros Hfr.
  destruct (speed_loop_returns lists prev_lists) as (st & Hrun & _).
  rewrite (calculate_from_loop cls _ _ Hrun). now apply to_speed_zero.
Qed.

(** One iteration returns when the frame read can be analysed and the
    estimator, if called, returns. *)
Lemma preprocess_body_returns (cls : class_attrs) (threshold_arg : Z)
  (st : preprocess_locals) (f : Image) (vid' : list Image) (out : pass_output) :
  vid st = f :: vid' ->
  analyse cls f threshold_arg = Ok out ->
  (prev_droplet_list st = None \/ frame_rate cls <> 0%Z) ->
  exists st' : preprocess_locals,
    preprocess_body cls threshold_arg st = Ok st'.
Proof.
  intros Hvid Han Hsp. apply analyse_unfold in Han.
  unfold preprocess_body. rewrite Hvid. cbn [read].
  destruct (new_frame cls (Some f) threshold_arg) as [frame | e];
    cbn [bind] in Han |- *; [| discriminate].
  rewrite Han. cbn [bind].
  destruct (prev_droplet_list st) as [p |].
  - destruct Hsp as [Hsp | Hfr]; [discriminate |].
    destruct (estimator_returns cls (out_droplet_list out) p Hfr) as [v ->].
    cbn [bind]. eexists. reflexivity.
  - cbn [bind]. eexists. reflexivity.
Qed.

Lemma preprocess_loop_returns (cls : class_attrs) (threshold_arg : Z)
  (fuel : nat) :
  forall st : preprocess_locals,
  frame_rate cls <> 0%Z ->
  (fuel <= length (vid st))%nat ->
  (forall f, In f (firstn fuel (vid st)) ->
             exists out, analyse cls f threshold_arg = Ok out) ->
  exists st' : preprocess_locals,
    preprocess_loop cls threshold_arg fuel st = Ok st'.
Proof.
  induction fuel as [| fuel IH]; intros st Hfr Hlen Han; cbn [preprocess_loop];
    destruct (frame_number (self_video st) <? max_frames (self_video st))%Z;
    try (eexists; reflexivity).
  destruct (vid st) as [| f vid'] eqn:Hvid; [cbn in Hlen; lia |].
  destruct (Han f (or_introl eq_refl)) as [out Hout].
  destruct (@preprocess_body_returns cls threshold_arg st f vid' out
              Hvid Hout (or_intror Hfr)) as [s1 Hbody].
  rewrite Hbody. cbn [bind].
  destruct (preprocess_body_ok _ _ _ Hbody)
    as (f0 & vid0 & _ & _ & Hv0 & _ & _ & _ & _ & Hv1 & _).
  rewrite Hvid in Hv0. injection Hv0 as <- <-.
  apply IH; [exact Hfr | rewrite Hv1; cbn in Hlen; lia |].
  intros g Hg. apply Han. right. now rewrite Hv1 in Hg.
Qed.

Lemma processed_from_in_range (cls : class_attrs) (threshold_arg : Z)
  (new : list info) (n : Z) prev speed0 vid :
  processed_from cls threshold_arg n prev speed0 vid new ->
  (0 <= n)%Z -> (n + Z.of_nat (length new) <= 65535)%Z ->
  Forall (fun e => (0 <= info_frame_number e <= 65535)%Z) new.
Proof.
  intros Hchain H0 Hmax. apply Forall_forall. intros e He.
  apply In_nth_error in He. destruct He as [k Hk].
  assert (Hlt : (k < length new)%nat)
    by (apply nth_error_Some; rewrite Hk; discriminate).
  edestruct processed_from_numbers as [Hn _]; [exact Hchain | exact Hk |].
  rewrite Hn. lia.
Qed.

Lemma preprocess_total (cls : class_attrs)
  (wbwt_save : worksheet -> result unit) (cap : capture) (self : video)
  (threshold_arg : Z) :
  frame_rate cls <> 0%Z ->
  let n := Z.to_nat (frame_count cap - frame_number self) in
  (n <= length (frames cap))%nat ->
  (forall f, In f (firstn n (frames cap)) ->
             exists out, analyse cls f threshold_arg = Ok out) ->
  (0 <= frame_number self)%Z -> (frame_count cap <= 65535)%Z ->
  Forall (fun e => (0 <= info_frame_number e <= 65535)%Z)
    (information_array self) ->
  (forall ws, wbwt_save ws = Ok tt) ->
  exists self' : video,
    preprocess cls wbwt_save cap self threshold_arg = Ok self'.
Proof.
  intros Hfr n Hlen Han H0 Hmax Hold Hdisk.
  unfold preprocess. cbn [max_frames frame_number set_max_frames].
  fold n.
  match goal with |- context [preprocess_loop _ _ _ ?s0] =>
    destruct (@preprocess_loop_returns cls threshold_arg n s0 Hfr Hlen Han)
      as [st Hloop]
  end.
  rewrite Hloop. cbn [bind].
  apply save_data_returns; [exact Hdisk |].
  apply preprocess_loop_ok in Hloop; [| cbn; lia].
  destruct Hloop as (new & Hi & Hl & _ & _ & Hchain).
  cbn in Hi, Hl, Hchain. rewrite Hi. apply Forall_app. split; [exact Hold |].
  destruct new as [| e new]; [constructor |].
  eapply processed_from_in_range; [exact Hchain | exact H0 |].
  rewrite Hl. cbn [length] in Hl. lia.
Qed.

(** X22.  [preprocess] returns when the frame rate is not zero, the capture
    holds as many frames as are still to process, each of them can be
    analysed, every frame number old and new is a row of the worksheet
    (0 to 65535), and writing the file succeeds; it then has added that many
    entries. *)
Theorem preprocess_returns (cls : class_attrs)
  (wbwt_save : worksheet -> result unit) (cap : capture) (self : video)
  (threshold_arg : Z) :
  frame_rate cls <> 0%Z ->
  let n := Z.to_nat (frame_count cap - frame_number self) in
  (n <= length (frames cap))%nat ->
  (forall f, In f (firstn n (frames cap)) ->
             exists out, analyse cls f threshold_arg = Ok out) ->
  (0 <= frame_number self)%Z -> (frame_count cap <= 65535)%Z ->
  Forall (fun e => (0 <= info_frame_number e <= 65535)%Z)
    (information_array self) ->
  (forall ws, wbwt_save ws = Ok tt) ->
  exists self' : video,
    preprocess cls wbwt_save cap self threshold_arg = Ok self' /\
    length (information_array self')
    = (length (information_array self) + n)%nat.
Proof.
  intros Hfr n Hlen Han H0 Hmax Hold Hdisk.
  destruct (@preprocess_total cls wbwt_save cap self threshold_arg
              Hfr Hlen Han H0 Hmax Hold Hdisk) as [self' Hrun].
  exists self'. split; [exact Hrun |].
  destruct (preprocess_ok _ _ _ _ _ Hrun) as (new & Hi & Hl & _).
  rewrite Hi, length_app, Hl. reflexivity.
Qed.

(** X23.  With the frame rate left at zero, a video of two frames or more
    makes [preprocess] raise [ZeroDivisionError] at its second frame. *)
Theorem preprocess_zero_frame_rate_raises (cls : class_attrs)
  (wbwt_save : worksheet -> result unit) (cap : capture)
  (self : video) (threshold_arg : Z) (f1 f2 : Image) (rest : list Image)
  (out1 out2 : pass_output) :
  frame_rate cls = 0%Z ->
  frames cap = f1 :: f2 :: rest ->
  (frame_number self + 2 <= frame_count cap)%Z ->
  analyse cls f1 threshold_arg = Ok out1 ->
  analyse cls f2 threshold_arg = Ok out2 ->
  preprocess cls wbwt_save cap self threshold_arg = Raise ZeroDivisionError.
Proof.
  intros Hfr Hframes Hcount Han1 Han2.
  unfold preprocess. cbn [max_frames frame_number set_max_frames].
  destruct (Z.to_nat (frame_count cap - frame_number self))
    as [| [| fuel]] eqn:Hfuel; try lia.
  rewrite Hframes.
  match goal with |- context [preprocess_loop _ _ _ ?s0] => set (st0 := s0) end.
  cbn [preprocess_loop].
  replace (frame_number (self_video st0) <? max_frames (self_video st0))%Z
    with true by (symmetry; apply Z.ltb_lt; cbn; lia).
  destruct (@preprocess_body_returns cls threshold_arg st0 f1 (f2 :: rest) out1
              eq_refl Han1 (or_introl eq_refl)) as [s1 Hbody].
  rewrite Hbody. cbn [bind].
  destruct (preprocess_body_ok _ _ _ Hbody)
    as (g & vid' & o & _ & Hv0 & _ & _ & Hprev & _ & Hv1 & Hfn & Hmax & _).
  cbn [vid st0] in Hv0. injection Hv0 as <- <-.
  cbn [self_video st0 frame_number max_frames set_max_frames] in Hfn, Hmax.
  replace (frame_number (self_video s1) <? max_frames (self_video s1))%Z
    with true by (symmetry; apply Z.ltb_lt; lia).
  unfold preprocess_body. rewrite Hv1. cbn [read].
  apply analyse_unfold in Han2.
  destruct (new_frame cls (Some f2) threshold_arg) as [frame | e];
    cbn [bind] in Han2 |- *; [| discriminate].
  rewrite Han2. cbn [bind]. rewrite Hprev.
  rewrite (estimator_raises _ _ _ Hfr). reflexivity.
Qed.

End Preprocess.

(* ================================================================== *)
(** * The saved worksheet *)

Section Worksheet.

Import Frame Video.
Import String.StringSyntax.

Context {cv : OpenCV}.

Local Open Scope string_scope.
Open Scope Z_scope.

Lemma cell_at_app (ws more : worksheet) (row col : Z) :
  cell_at (ws ++ more) row col
  = fold_left
      (fun found w =>
         let '(r, c, text) := w in
         if (r =? row) && (c =? col) then Some text else found)
      more (cell_at ws row col).
Proof. unfold cell_at. apply fold_left_app. Qed.

Lemma cell_at_row_writes_other (ws : worksheet) (e : info) (row col : Z) :
  info_frame_number e <> row ->
  cell_at (ws ++ row_writes e) row col = cell_at ws row col.
Proof.
  intros Hne. unfold row_writes. rewrite cell_at_app. cbn [fold_left].
  apply Z.eqb_neq in Hne. rewrite Hne. reflexivity.
Qed.

Lemma cell_at_row_writes_same (ws : worksheet) (e : info) :
  let n := info_frame_number e in
  let sheet := ws ++ row_writes e in
  cell_at sheet n 0 = Some (str_int n) /\
  cell_at sheet n 1 = Some (str_num (info_radius e)) /\
  cell_at sheet n 2 = Some (str_num (info_droplet_speed e)) /\
  cell_at sheet n 3 = Some (str_int (info_jet_width e)) /\
  cell_at sheet n 4 = Some (str_int (info_jet_length e)).
Proof.
  cbv zeta. unfold row_writes. rewrite !cell_at_app. cbn [fold_left].
  rewrite Z.eqb_refl. cbn. repeat split; reflexivity.
Qed.

Lemma cell_at_rows_other (es : list info) :
  forall (ws : worksheet) (row col : Z),
  ~ In row (map info_frame_number es) ->
  cell_at (ws ++ flat_map row_writes es) row col = cell_at ws row col.
Proof.
  induction es as [| e es IH]; intros ws row col Hnot; cbn [flat_map].
  - now rewrite app_nil_r.
  - rewrite app_assoc, IH by (intros H; apply Hnot; now right).
    apply cell_at_row_writes_other. intros E. apply Hnot. now left.
Qed.

Lemma cell_at_rows (es : list info) :
  forall (ws : worksheet) (e : info),
  NoDup (map info_frame_number es) -> In e es ->
  let sheet := ws ++ flat_map row_writes es in
  let n := info_frame_number e in
  cell_at sheet n 0 = Some (str_int n) /\
  cell_at sheet n 1 = Some (str_num (info_radius e)) /\
  cell_at sheet n 2 = Some (str_num (info_droplet_speed e)) /\
  cell_at sheet n 3 = Some (str_int (info_jet_width e)) /\
  cell_at sheet n 4 = Some (str_int (info_jet_length e)).
Proof.
  induction es as [| e0 es IH]; intros ws e Hnd Hin; [contradiction |].
  cbn [map] in Hnd. apply NoDup_cons_iff in Hnd. destruct Hnd as [Hfresh Hnd].
  cbn [flat_map]. rewrite app_assoc. destruct Hin as [-> | Hin].
  - cbv zeta. rewrite !cell_at_rows_other by exact Hfresh.
    apply cell_at_row_writes_same.
  - now apply IH.
Qed.

Lemma numbered_nodup (es : list info) :
  forall n : Z,
  (forall (k : nat) (e : info),
     nth_error es k = Some e -> info_frame_number e = n + Z.of_nat k + 1) ->
  NoDup (map info_frame_number es) /\
  forall m, In m (map info_frame_number es) -> n < m.
Proof.
  induction es as [| e es IH]; intros n Hnum; cbn [map].
  - split; [constructor | contradiction].
  - destruct (IH (n + 1)) as [Hnd Hgt].
    { intros k e' Hk. rewrite (Hnum (S k) e' Hk). lia. }
    pose proof (Hnum O e eq_refl) as He.
    split.
    + constructor; [| exact Hnd]. intros Hin. apply Hgt in Hin. lia.
    + intros m [<- | Hm]; [lia |]. apply Hgt in Hm. lia.
Qed.

(** X24.  The worksheet [preprocess] saves for a fresh video: row [n] holds the
    data of frame [n] and the header row is intact.  The column headed
    ["Length (px)"] holds the jet width, and the column headed
    ["Width (px)"] the jet length. *)
Theorem preprocess_saves_rows (cls : class_attrs)
  (wbwt_save : worksheet -> result unit) (cap : capture)
  (self self' : video) (threshold_arg : Z) :
  information_array self = [] -> 0 <= frame_number self ->
  preprocess cls wbwt_save cap self threshold_arg = Ok self' ->
  exists sheet : worksheet,
    saved self' = Some sheet /\
    cell_at sheet 0 0 = Some (label "Frame Number") /\
    cell_at sheet 0 1 = Some (label "Radius (px)") /\
    cell_at sheet 0 2 = Some (label "Speed (px)") /\
    cell_at sheet 0 3 = Some (label "Length (px)") /\
    cell_at sheet 0 4 = Some (label "Width (px)") /\
    forall e : info,
      In e (information_array self') ->
      let n := info_frame_number e in
      cell_at sheet n 0 = Some (str_int n) /\
      cell_at sheet n 1 = Some (str_num (info_radius e)) /\
      cell_at sheet n 2 = Some (str_num (info_droplet_speed e)) /\
      cell_at sheet n 3 = Some (str_int (info_jet_width e)) /\
      cell_at sheet n 4 = Some (str_int (info_jet_length e)).
Proof.
  intros Hempty Hfn Hrun.
  destruct (preprocess_ok _ _ _ _ _ Hrun) as (new & Hi & _ & _ & _ & Hchain).
  rewrite Hempty in Hi. cbn [app] in Hi.
  destruct (@numbered_nodup new (frame_number self)) as [Hnd Hgt].
  { intros k e Hk.
    edestruct processed_from_numbers as [Hn _]; [exact Hchain | exact Hk |].
    exact Hn. }
  unfold preprocess in Hrun.
  match type of Hrun with context [preprocess_loop ?a ?b ?c ?d] =>
    destruct (preprocess_loop a b c d) as [st | err] eqn:Hloop
  end; cbn [bind] in Hrun; [| discriminate].
  apply save_data_ok in Hrun. destruct Hrun as (_ & _ & ->).
  cbn [set_saved saved information_array] in Hi |- *.
  rewrite Hi.
  eexists. split; [reflexivity |].
  assert (H0 : ~ In 0 (map info_frame_number new)).
  { intros H. apply Hgt in H. lia. }
  do 5 (split; [rewrite cell_at_rows_other by exact H0; reflexivity |]).
  intros e He. now apply cell_at_rows.
Qed.

End Worksheet.

(* ================================================================== *)
(** * Playback *)

Section Playback.

Import Frame Video.

Context {cv : OpenCV}.

Open Scope R_scope.

Lemma getitem_nth {A : Type} (xs : list A) (k : nat) (x : A) :
  nth_error xs k = Some x -> PyList.getitem xs (Z.of_nat k) = Ok x.
Proof.
  intros Hk. unfold PyList.getitem.
  replace (0 <=? Z.of_nat k)%Z with true by (symmetry; apply Z.leb_le; lia).
  rewrite Nat2Z.id. unfold Py.getitem. now rewrite Hk.
Qed.

Lemma skipn_cons_nth {A : Type} (k : nat) :
  forall (xs : list A) (x : A) (rest : list A),
  skipn k xs = x :: rest -> nth_error xs k = Some x /\ skipn (S k) xs = rest.
Proof.
  induction k as [| k IH]; intros xs x rest Hs.
  - cbn in Hs. subst xs. split; reflexivity.
  - destruct xs as [| y xs]; [discriminate |].
    cbn [skipn nth_error] in Hs |- *. now apply IH.
Qed.

(** One pass of the loop of [run] on a frame in range. *)
Lemma run_iteration_shows (cls : class_attrs) (self : video) (g : Graphs.data)
  (k : nat) (e : info) :
  is_paused self = false ->
  frame_number self = Z.of_nat k ->
  nth_error (information_array self) k = Some e ->
  exists self' : video,
    run_iteration cls (self, g) = Ok (self', g) /\
    frame_number self' = Z.of_nat (S k) /\
    emitted self' = emitted self ++ frame_signals cls (Z.of_nat k) e /\
    information_array self' = information_array self /\
    is_paused self' = false.
Proof.
  intros Hp Hfn Hk. unfold run_iteration. rewrite Hp. cbn [negb].
  assert (Hlt : (k < length (information_array self))%nat)
    by (apply nth_error_Some; rewrite Hk; discriminate).
  replace (frame_number self <? Z.of_nat (length (information_array self)))%Z
    with true by (symmetry; apply Z.ltb_lt; lia).
  unfold get_preprocessed_info. rewrite Hfn, (getitem_nth _ _ Hk).
  cbn [bind]. eexists. split; [reflexivity |].
  cbn [frame_number emitted information_array is_paused set_frame_number emit].
  rewrite Hfn, <- !app_assoc. cbn [app frame_signals].
  repeat split; try assumption. lia.
Qed.

Lemma run_iterations_show (cls : class_attrs) (g : Graphs.data)
  (es : list info) :
  forall (k : nat) (self : video),
  is_paused self = false ->
  frame_number self = Z.of_nat k ->
  skipn k (information_array self) = es ->
  exists self' : video,
    run_iterations cls (length es) (self, g) = Ok (self', g) /\
    frame_number self' = Z.of_nat (k + length es) /\
    emitted self' = emitted self ++ playback cls (Z.of_nat k) es /\
    information_array self' = information_array self /\
    is_paused self' = false.
Proof.
  induction es as [| e es IH]; intros k self Hp Hfn Hs.
  - exists self. cbn. rewrite app_nil_r, Nat.add_0_r. repeat split; assumption.
  - destruct (skipn_cons_nth _ _ Hs) as [Hk Hs'].
    destruct (@run_iteration_shows cls self g k e Hp Hfn Hk)
      as (s1 & Hrun & Hfn1 & Hem1 & Hi1 & Hp1).
    destruct (IH (S k) s1 Hp1 Hfn1) as (s2 & Hrun2 & Hfn2 & Hem2 & Hi2 & Hp2);
      [now rewrite Hi1 |].
    exists s2. cbn [length run_iterations]. rewrite Hrun. cbn [bind].
    split; [exact Hrun2 |]. split; [rewrite Hfn2; f_equal; lia |].
    split; [| split; [congruence | exact Hp2]].
    rewrite Hem2, Hem1, <- app_assoc. cbn [playback]. do 2 f_equal.
    f_equal. lia.
Qed.

(** X25.  A playback cycle: started at frame 0 and not paused, the loop of
    [run] shows every entry once, in order, without raising; the pass after
    the last frame rewinds to frame 0 and clears the plotted data. *)
Theorem playback_cycle (cls : class_attrs) (self : video) (g : Graphs.data) :
  is_paused self = false ->
  frame_number self = 0%Z ->
  exists self' : video,
    run_iterations cls (length (information_array self)) (self, g)
    = Ok (self', g) /\
    emitted self' = emitted self ++ playback cls 0 (information_array self) /\
    run_iteration cls (self', g) = Ok (set_frame_number self' 0, Graphs.cleared).
Proof.
  intros Hp Hfn.
  destruct (@run_iterations_show cls g (information_array self) O self
              Hp Hfn eq_refl) as (self' & Hrun & Hfn' & Hem & Hi & Hp').
  exists self'. split; [exact Hrun |]. split; [exact Hem |].
  unfold run_iteration. rewrite Hp'. cbn [negb].
  replace (frame_number self' <? Z.of_nat (length (information_array self')))%Z
    with false by (symmetry; apply Z.ltb_ge; rewrite Hfn', Hi; lia).
  reflexivity.
Qed.

Lemma int_small (x : R) : -1 < x < 1 -> Py.int x = 0%Z.
Proof.
  intros [Hlo Hhi]. unfold Py.int.
  destruct (Rle_dec 0 x) as [Hpos | Hneg].
  - symmetry. apply Int_part_spec. lra.
  - assert (E : Int_part (- x) = 0%Z)
      by (symmetry; apply Int_part_spec; lra).
    rewrite E. reflexivity.
Qed.

(** X26.  The speed is shown as an integer: a stored speed of less than one
    (in absolute value) is emitted as 0, to the labels and to the graphs. *)
Theorem speed_below_one_shown_as_zero (cls : class_attrs) (self : video)
  (g : Graphs.data) (k : nat) (e : info) :
  is_paused self = false ->
  frame_number self = Z.of_nat k ->
  nth_error (information_array self) k = Some e ->
  -1 < info_droplet_speed e < 1 ->
  exists self' : video,
    run_iteration cls (self, g) = Ok (self', g) /\
    emitted self'
    = emitted self
      ++ [info_signal (Py.int (info_radius e)) (info_jet_length e)
            (info_jet_width e) 0;
          graph_signal (Py.int (info_radius e)) (info_jet_length e)
            (info_jet_width e) 0 (Z.of_nat k);
          slider_signal (Z.of_nat k);
          image_signal (if outline cls then info_cimg e else info_f e)].
Proof.
  intros Hp Hfn Hk Hsmall.
  destruct (@run_iteration_shows cls self g k e Hp Hfn Hk)
    as (self' & Hrun & _ & Hem & _).
  exists self'. split; [exact Hrun |].
  rewrite Hem. unfold frame_signals. rewrite (int_small Hsmall). reflexivity.
Qed.

(** X27.  A paused video stays put: however often the loop of [run] passes, no
    signal is emitted and the frame number is kept, and [play] resumes at
    that frame. *)
Theorem paused_video_stays (cls : class_attrs) (self : video)
  (g : Graphs.data) (n : nat) :
  run_iterations cls n (pause self, g) = Ok (pause self, g) /\
  frame_number (play (pause self)) = frame_number self /\
  emitted (play (pause self)) = emitted self /\
  is_paused (play (pause self)) = false.
Proof.
  split; [| repeat split].
  induction n as [| n IH]; cbn [run_iterations].
  - reflexivity.
  - unfold run_iteration at 1. cbn [pause set_is_paused is_paused negb bind].
    exact IH.
Qed.

End Playback.

(* ================================================================== *)
(** * The plotted window *)

Section PlottedWindow.

Import MyGUI.

Lemma lastn_short {A : Type} (xs : list A) (x : A) :
  (length xs < 10)%nat ->
  lastn 10 xs ++ [x] = lastn 10 (xs ++ [x]) /\
  (10 <? length (lastn 10 xs ++ [x]))%nat = false.
Proof.
  intros Hlen. unfold lastn. rewrite length_app. cbn [length].
  replace (length xs - 10)%nat with 0%nat by lia.
  replace (length xs + 1 - 10)%nat with 0%nat by lia.
  cbn [skipn]. split; [reflexivity |].
  apply Nat.ltb_ge. rewrite length_app. cbn [length]. lia.
Qed.

Lemma lastn_full {A : Type} (xs : list A) (x : A) :
  (10 <= length xs)%nat ->
  (exists a, PyList.pop0 (lastn 10 xs ++ [x]) = Ok (a, lastn 10 (xs ++ [x]))) /\
  (10 <? length (lastn 10 xs ++ [x]))%nat = true.
Proof.
  intros Hlen. unfold lastn. rewrite length_app. cbn [length].
  replace (length xs + 1 - 10)%nat with (1 + (length xs - 10))%nat by lia.
  rewrite <- skipn_skipn, skipn_app.
  replace (length xs - 10 - length xs)%nat with 0%nat by lia.
  change (skipn 0 [x]) with [x].
  destruct (skipn (length xs - 10) xs) as [| a w] eqn:Hw.
  - apply (f_equal (@length A)) in Hw. rewrite length_skipn in Hw.
    cbn in Hw. lia.
  - split.
    + exists a. reflexivity.
    + apply Nat.ltb_lt. rewrite length_app. cbn [length].
      apply (f_equal (@length A)) in Hw. rewrite length_skipn in Hw.
      cbn [length] in Hw. lia.
Qed.

Lemma lastn_length {A : Type} (xs : list A) :
  length (lastn 10 xs) = Nat.min 10 (length xs).
Proof. unfold lastn. rewrite length_skipn. lia. Qed.

(** One [update_graph] on a window that shows the last ten of the points
    [pre] leaves a window that shows the last ten of [pre] and the new
    point. *)
Lemma push_point_window (g : Graphs.data) (pre : list plotted) (p : plotted) :
  Graphs.frameData g = lastn 10 (map point_frame pre) ->
  Graphs.radiusData g = lastn 10 (map point_radius pre) ->
  Graphs.lengthData g = lastn 10 (map point_length pre) ->
  Graphs.widthData g = lastn 10 (map point_width pre) ->
  Graphs.speedData g = lastn 10 (map point_speed pre) ->
  exists g' : Graphs.data,
    push_point g (point_radius p) (point_length p) (point_width p)
      (point_speed p) (point_frame p) = Ok g' /\
    Graphs.frameData g' = lastn 10 (map point_frame (pre ++ [p])) /\
    Graphs.radiusData g' = lastn 10 (map point_radius (pre ++ [p])) /\
    Graphs.lengthData g' = lastn 10 (map point_length (pre ++ [p])) /\
    Graphs.widthData g' = lastn 10 (map point_width (pre ++ [p])) /\
    Graphs.speedData g' = lastn 10 (map point_speed (pre ++ [p])).
Proof.
  intros Hf Hr Hl Hw Hs.
  unfold push_point, add_new_point, remove_first_point.
  cbn [Graphs.frameData Graphs.radiusData Graphs.lengthData Graphs.widthData
       Graphs.speedData].
  rewrite Hf, Hr, Hl, Hw, Hs, !map_app. cbn [map].
  destruct (le_lt_dec 10 (length pre)) as [Hfull | Hshort].
  - assert (Hlen : forall h : plotted -> Z, (10 <= length (map h pre))%nat)
      by (intros h; now rewrite length_map).
    destruct (lastn_full (map point_frame pre) (point_frame p) (Hlen _))
      as [[a1 ->] ->].
    destruct (lastn_full (map point_radius pre) (point_radius p) (Hlen _))
      as [[a2 ->] _].
    destruct (lastn_full (map point_length pre) (point_length p) (Hlen _))
      as [[a3 ->] _].
    destruct (lastn_full (map point_width pre) (point_width p) (Hlen _))
      as [[a4 ->] _].
    destruct (lastn_full (map point_speed pre) (point_speed p) (Hlen _))
      as [[a5 ->] _].
    cbn [bind]. eexists. split; [reflexivity |]. cbn. repeat split.
  - assert (Hlen : forall h : plotted -> Z, (length (map h pre) < 10)%nat)
      by (intros h; now rewrite length_map).
    destruct (lastn_short (map point_frame pre) (point_frame p) (Hlen _))
      as [-> ->].
    destruct (lastn_short (map point_radius pre) (point_radius p) (Hlen _))
      as [-> _].
    destruct (lastn_short (map point_length pre) (point_length p) (Hlen _))
      as [-> _].
    destruct (lastn_short (map point_width pre) (point_width p) (Hlen _))
      as [-> _].
    destruct (lastn_short (map point_speed pre) (point_speed p) (Hlen _))
      as [-> _].
    eexists. split; [reflexivity |]. cbn. repeat split.
Qed.

Lemma push_points_window (pts : list plotted) :
  forall (g : Graphs.data) (pre : list plotted),
  Graphs.frameData g = lastn 10 (map point_frame pre) ->
  Graphs.radiusData g = lastn 10 (map point_radius pre) ->
  Graphs.lengthData g = lastn 10 (map point_length pre) ->
  Graphs.widthData g = lastn 10 (map point_width pre) ->
  Graphs.speedData g = lastn 10 (map point_speed pre) ->
  exists g' : Graphs.data,
    push_points g pts = Ok g' /\
    Graphs.frameData g' = lastn 10 (map point_frame (pre ++ pts)) /\
    Graphs.radiusData g' = lastn 10 (map point_radius (pre ++ pts)) /\
    Graphs.lengthData g' = lastn 10 (map point_length (pre ++ pts)) /\
    Graphs.widthData g' = lastn 10 (map point_width (pre ++ pts)) /\
    Graphs.speedData g' = lastn 10 (map point_speed (pre ++ pts)).
Proof.
  unfold push_points.
  induction pts as [| p pts IH]; intros g pre Hf Hr Hl Hw Hs.
  - exists g. rewrite app_nil_r. cbn. repeat split; assumption.
  - destruct (push_point_window g pre p Hf Hr Hl Hw Hs)
      as (g1 & Hrun & Hf1 & Hr1 & Hl1 & Hw1 & Hs1).
    destruct (IH g1 (pre ++ [p]) Hf1 Hr1 Hl1 Hw1 Hs1)
      as (g2 & Hrun2 & Hf2 & Hr2 & Hl2 & Hw2 & Hs2).
    exists g2. cbn [for_each]. rewrite Hrun. cbn [bind].
    rewrite <- !app_assoc in Hf2, Hr2, Hl2, Hw2, Hs2.
    repeat split; assumption.
Qed.

(** X29.  The plots show a sliding window: after any sequence of updates from
    cleared data, each of the five lists holds the last ten values pushed
    (all of them when fewer), in order; no update raises. *)
Theorem plotted_window_last_ten (pts : list plotted) :
  exists g : Graphs.data,
    push_points Graphs.cleared pts = Ok g /\
    Graphs.frameData g = lastn 10 (map point_frame pts) /\
    Graphs.radiusData g = lastn 10 (map point_radius pts) /\
    Graphs.lengthData g = lastn 10 (map point_length pts) /\
    Graphs.widthData g = lastn 10 (map point_width pts) /\
    Graphs.speedData g = lastn 10 (map point_speed pts) /\
    length (Graphs.frameData g) = Nat.min 10 (length pts).
Proof.
  destruct (@push_points_window pts Graphs.cleared [])
    as (g & Hrun & Hf & Hr & Hl & Hw & Hs); try reflexivity.
  cbn [app] in Hf, Hr, Hl, Hw, Hs.
  exists g. repeat split; try assumption.
  rewrite Hf, lastn_length, length_map. reflexivity.
Qed.

End PlottedWindow.

(* ================================================================== *)
(** * Worked instances *)

Section Instances.

Import Frame Video MyGUI.
Import String.StringSyntax.

Local Open Scope string_scope.
Open Scope R_scope.

(** The thin strip under the test double that reports its true area and
    perimeter. *)
Lemma thin_strip_measured :
  @jet_width_length (stub_cv [] 20 42) [] thin_strip
  = Ok ([DrawRectangle (0, 0)%Z (0, 20)%Z], (0%Z, 20%Z)).
Proof.
  unfold thin_strip. rewrite jet_width_length_eval. cbv zeta.
  change (Np.sort (map fst [(0, 0); (1, 0); (1, 20); (0, 20); (0, 10)]%Z))
    with [0; 0; 0; 1; 1]%Z.
  change (length [(0, 0); (1, 0); (1, 20); (0, 20); (0, 10)]%Z / 2)%nat
    with 2%nat.
  cbn [firstn skipn].
  rewrite !meanZ_quot by discriminate.
  reflexivity.
Qed.

Lemma jet_width_length_nonnegative_witness : (0 <= 0)%Z /\ (0 <= 20)%Z.
Proof.
  destruct (@jet_width_length_nonnegative (stub_cv [] 20 42) []
              [DrawRectangle (0, 0)%Z (0, 20)%Z] thin_strip 0 20
              thin_strip_measured) as [Hwidth Hlen].
  split; [exact Hwidth |]. apply Hlen.
  intros p q [<- | [<- | [<- | [<- | [<- | []]]]]]
             [<- | [<- | [<- | [<- | [<- | []]]]]]; cbn; lia.
Defined.

Lemma jet_width_within_bounding_box_witness : (0 <= 1 - 0)%Z.
Proof.
  apply (@jet_width_within_bounding_box (stub_cv [] 20 42) []
           [DrawRectangle (0, 0)%Z (0, 20)%Z] thin_strip 0 20 0 1).
  - exact thin_strip_measured.
  - intros p [<- | [<- | [<- | [<- | [<- | []]]]]]; cbn; lia.
Defined.

Lemma jet_measurement_order_independent_witness :
  Shape.measurement (@jet_width_length (stub_cv [] 20 42) [] thin_strip)
  = Shape.measurement
      (@jet_width_length (stub_cv [] 20 42) [] (rev thin_strip)).
Proof.
  apply (@jet_measurement_order_independent (stub_cv [] 20 42) [] []
           thin_strip (rev thin_strip)).
  apply Permutation_rev.
Defined.

Lemma jet_of_rectangle_corners_witness :
  @jet_width_length (stub_cv [] 20 42) []
    [(2, 5); (6, 5); (6, 45); (2, 45)]%Z
  = Ok (@rectangle (stub_cv [] 20 42) [] (2, 5)%Z (6, 45)%Z,
        ((6 - 2)%Z, (45 - 5)%Z)).
Proof.
  apply (@jet_of_rectangle_corners (stub_cv [] 20 42) [] 2 6 5 45); lia.
Defined.

Lemma two_squares_well_measured :
  Forall (@Spec.well_measured (stub_cv two_squares 1 4)) two_squares.
Proof. repeat constructor; cbn; lra || lia. Qed.

Lemma two_squares_are_droplets :
  filter (@Spec.is_droplet (stub_cv two_squares 1 4)) two_squares
  = two_squares.
Proof.
  assert (Hd : forall cnt,
            @Spec.is_droplet (stub_cv two_squares 1 4) cnt = true).
  { intros cnt. unfold Spec.is_droplet, Spec.roundness.
    cbn [moments contourArea arcLength stub_cv m00].
    destruct (Req_dec_T 1 0) as [E | _]; [lra |].
    pose proof PI2_1.
    destruct (Rge_dec (4 * PI * 1 / 4 ^ 2) (5 / 10)) as [_ | N];
      [reflexivity | lra]. }
  unfold two_squares. cbn [filter]. rewrite !Hd. reflexivity.
Qed.

Lemma droplet_list_in_contour_order_witness :
  let cv := stub_cv two_squares 1 4 in
  exists out : @pass_output cv,
    @detect_in_contours cv [] two_squares = Ok out /\
    out_droplet_list out
    = map (fun cnt => (@Spec.center_row_of cv cnt, @Spec.radius_of cv cnt))
        (filter (@Spec.is_droplet cv) two_squares).
Proof.
  cbv zeta.
  destruct (@pass_loop_returns (stub_cv two_squares 1 4) two_squares
              two_squares_well_measured
              (@pass_init (stub_cv two_squares 1 4) [])) as [st Hst].
  assert (Hrun : @detect_in_contours (stub_cv two_squares 1 4) [] two_squares
                 = Ok (pass_finish st))
    by (unfold detect_in_contours; rewrite Hst; reflexivity).
  exists (pass_finish st). split; [exact Hrun |].
  apply (@droplet_list_in_contour_order (stub_cv two_squares 1 4) []
           two_squares (pass_finish st) Hrun).
Defined.

Lemma average_radius_between_extremes_witness :
  let cv := stub_cv two_squares 1 4 in
  exists out : @pass_output cv,
    @detect_in_contours cv [] two_squares = Ok out /\
    sqrt (1 / PI) <= out_radius_avg out <= sqrt (1 / PI).
Proof.
  cbv zeta.
  destruct (@pass_loop_returns (stub_cv two_squares 1 4) two_squares
              two_squares_well_measured
              (@pass_init (stub_cv two_squares 1 4) [])) as [st Hst].
  assert (Hrun : @detect_in_contours (stub_cv two_squares 1 4) [] two_squares
                 = Ok (pass_finish st))
    by (unfold detect_in_contours; rewrite Hst; reflexivity).
  exists (pass_finish st). split; [exact Hrun |].
  apply (@average_radius_between_extremes (stub_cv two_squares 1 4) []
           two_squares (pass_finish st) (sqrt (1 / PI)) (sqrt (1 / PI)) Hrun).
  - rewrite two_squares_are_droplets. discriminate.
  - intros cnt _ _. unfold Spec.radius_of. cbn [contourArea stub_cv]. lra.
Defined.

Lemma thin_strip_well_measured :
  Forall (@Spec.well_measured (stub_cv [] 20 42)) [thin_strip].
Proof. repeat constructor; cbn; lra || lia. Qed.

Lemma last_jet_wins_witness :
  let cv := stub_cv [] 20 42 in
  exists out : @pass_output cv,
    @detect_in_contours cv [] [thin_strip] = Ok out /\
    match @Shape.last_jet cv [thin_strip] with
    | Some cnt => forall canvas,
                  Shape.measurement (@jet_width_length cv canvas cnt)
                  = Ok (out_jet_width out, out_jet_length out)
    | None => out_jet_width out = 0%Z /\ out_jet_length out = 0%Z
    end.
Proof.
  cbv zeta.
  destruct (@pass_loop_returns (stub_cv [] 20 42) [thin_strip]
              thin_strip_well_measured
              (@pass_init (stub_cv [] 20 42) [])) as [st Hst].
  assert (Hrun : @detect_in_contours (stub_cv [] 20 42) [] [thin_strip]
                 = Ok (pass_finish st))
    by (unfold detect_in_contours; rewrite Hst; reflexivity).
  exists (pass_finish st). split; [exact Hrun |].
  apply (@last_jet_wins (stub_cv [] 20 42) [] [thin_strip]
           (pass_finish st) Hrun).
Defined.

Lemma degenerate_shape_ignored_witness :
  let cv := stub_cv [] 0 4 in
  @detect_in_contours cv [] ([] ++ [(3, 3)%Z] :: [])
  = @detect_in_contours cv [] ([] ++ []).
Proof.
  apply (@degenerate_shape_ignored (stub_cv [] 0 4) [] [] [] [(3, 3)%Z]).
  reflexivity.
Defined.

Lemma droplet_rad_disk_area_witness :
  let '(_, (count', sum', radius)) :=
    @droplet_rad (stub_cv [] 1 4) [] 1 0 0 0 0 in
  PI * radius ^ 2 = 1 /\ 0 <= radius /\
  count' = (0 + 1)%Z /\ sum' = 0 + radius.
Proof.
  apply (@droplet_rad_disk_area (stub_cv [] 1 4) [] 1 0 0 0 0). lra.
Defined.

Lemma blank_analysed (cls : class_attrs) (f : @Image (stub_cv [] 1 4)) :
  exists out, @analyse (stub_cv [] 1 4) cls f 128 = Ok out.
Proof. eexists. reflexivity. Qed.

Lemma two_frames_preprocessed :
  exists self' : @video (stub_cv [] 1 4),
    @preprocess (stub_cv [] 1 4) (fps 1000) disk_ok two_frames fresh_video 128
    = Ok self'.
Proof.
  apply (@preprocess_total (stub_cv [] 1 4) (fps 1000) disk_ok two_frames
           fresh_video 128).
  - cbn. lia.
  - cbn. lia.
  - intros f _. apply blank_analysed.
  - cbn. lia.
  - cbn. lia.
  - constructor.
  - reflexivity.
Qed.

Lemma preprocess_numbers_entries_witness :
  exists (self' : @video (stub_cv [] 1 4)) (new : list info),
    @preprocess (stub_cv [] 1 4) (fps 1000) disk_ok two_frames fresh_video 128
    = Ok self' /\
    information_array self' = information_array fresh_video ++ new /\
    length new = Z.to_nat (frame_count two_frames - frame_number fresh_video) /\
    (forall (k : nat) (e : info),
       nth_error new k = Some e ->
       info_frame_number e = (frame_number fresh_video + Z.of_nat k + 1)%Z /\
       nth_error (frames two_frames) k = Some (info_f e)) /\
    frame_number self'
    = Z.max (frame_number fresh_video) (frame_count two_frames).
Proof.
  destruct two_frames_preprocessed as [self' Hrun].
  destruct (@preprocess_numbers_entries (stub_cv [] 1 4) (fps 1000) disk_ok
              two_frames fresh_video self' 128 Hrun) as [new Hnew].
  exists self', new. split; [exact Hrun | exact Hnew].
Defined.

Lemma preprocess_threads_droplet_lists_witness :
  exists (self' : @video (stub_cv [] 1 4)) (new : list info),
    @preprocess (stub_cv [] 1 4) (fps 1000) disk_ok two_frames fresh_video 128
    = Ok self' /\
    information_array self' = information_array fresh_video ++ new /\
    (forall e : info, nth_error new 0 = Some e -> info_droplet_speed e = 0) /\
    (forall (k : nat) (e e' : info),
       nth_error new k = Some e -> nth_error new (S k) = Some e' ->
       exists out out' : pass_output,
         analyse (fps 1000) (info_f e) 128 = Ok out /\
         analyse (fps 1000) (info_f e') 128 = Ok out' /\
         calculate_droplet_speed (fps 1000)
           (out_droplet_list out') (out_droplet_list out)
         = Ok (info_droplet_speed e')).
Proof.
  destruct two_frames_preprocessed as [self' Hrun].
  destruct (@preprocess_threads_droplet_lists (stub_cv [] 1 4) (fps 1000)
              disk_ok two_frames fresh_video self' 128 Hrun) as [new Hnew].
  exists self', new. split; [exact Hrun | exact Hnew].
Defined.

Lemma preprocess_returns_witness :
  exists self' : @video (stub_cv [] 1 4),
    @preprocess (stub_cv [] 1 4) (fps 1000) disk_ok two_frames fresh_video 128
    = Ok self' /\
    length (information_array self')
    = (length (information_array fresh_video)
       + Z.to_nat (frame_count two_frames - frame_number fresh_video))%nat.
Proof.
  apply (@preprocess_returns (stub_cv [] 1 4) (fps 1000) disk_ok two_frames
           fresh_video 128).
  - cbn. lia.
  - cbn. lia.
  - intros f _. apply blank_analysed.
  - cbn. lia.
  - cbn. lia.
  - constructor.
  - reflexivity.
Defined.

Lemma preprocess_zero_frame_rate_raises_witness :
  @preprocess (stub_cv [] 1 4) class_default disk_ok two_frames fresh_video 128
  = Raise ZeroDivisionError.
Proof.
  apply (@preprocess_zero_frame_rate_raises (stub_cv [] 1 4) class_default
           disk_ok two_frames fresh_video 128 blank blank []
           (pass_finish (pass_init blank)) (pass_finish (pass_init blank))).
  - reflexivity.
  - reflexivity.
  - cbn. lia.
  - reflexivity.
  - reflexivity.
Defined.

Lemma preprocess_saves_rows_witness :
  exists (self' : @video (stub_cv [] 1 4)) (sheet : worksheet),
    @preprocess (stub_cv [] 1 4) (fps 1000) disk_ok two_frames fresh_video 128
    = Ok self' /\
    saved self' = Some sheet /\
    cell_at sheet 0 0 = Some (label "Frame Number") /\
    cell_at sheet 0 1 = Some (label "Radius (px)") /\
    cell_at sheet 0 2 = Some (label "Speed (px)") /\
    cell_at sheet 0 3 = Some (label "Length (px)") /\
    cell_at sheet 0 4 = Some (label "Width (px)") /\
    forall e : info,
      In e (information_array self') ->
      let n := info_frame_number e in
      cell_at sheet n 0 = Some (str_int n) /\
      cell_at sheet n 1 = Some (str_num (info_radius e)) /\
      cell_at sheet n 2 = Some (str_num (info_droplet_speed e)) /\
      cell_at sheet n 3 = Some (str_int (info_jet_width e)) /\
      cell_at sheet n 4 = Some (str_int (info_jet_length e)).
Proof.
  destruct two_frames_preprocessed as [self' Hrun].
  destruct (@preprocess_saves_rows (stub_cv [] 1 4) (fps 1000) disk_ok
              two_frames fresh_video self' 128 eq_refl) as [sheet Hsheet].
  - cbn. lia.
  - exact Hrun.
  - exists self', sheet. split; [exact Hrun | exact Hsheet].
Defined.

Lemma playback_cycle_witness :
  exists self' : @video (stub_cv [] 1 4),
    run_iterations (fps 1000) (length (information_array sample_video))
      (sample_video, Graphs.cleared)
    = Ok (self', Graphs.cleared) /\
    emitted self'
    = emitted sample_video
      ++ playback (fps 1000) 0 (information_array sample_video) /\
    run_iteration (fps 1000) (self', Graphs.cleared)
    = Ok (set_frame_number self' 0, Graphs.cleared).
Proof.
  apply (@playback_cycle (stub_cv [] 1 4) (fps 1000) sample_video
           Graphs.cleared); reflexivity.
Defined.

Lemma speed_below_one_shown_as_zero_witness :
  exists self' : @video (stub_cv [] 1 4),
    run_iteration (fps 1000)
      (set_frame_number sample_video 1, Graphs.cleared)
    = Ok (self', Graphs.cleared) /\
    emitted self'
    = emitted (set_frame_number sample_video 1)
      ++ [info_signal (Py.int (info_radius (sample_entry 2 (38 / 100))))
            (info_jet_length (sample_entry 2 (38 / 100)))
            (info_jet_width (sample_entry 2 (38 / 100))) 0;
          graph_signal (Py.int (info_radius (sample_entry 2 (38 / 100))))
            (info_jet_length (sample_entry 2 (38 / 100)))
            (info_jet_width (sample_entry 2 (38 / 100))) 0 (Z.of_nat 1);
          slider_signal (Z.of_nat 1);
          image_signal (if outline (fps 1000)
                        then info_cimg (sample_entry 2 (38 / 100))
                        else info_f (sample_entry 2 (38 / 100)))].
Proof.
  apply (@speed_below_one_shown_as_zero (stub_cv [] 1 4) (fps 1000)
           (set_frame_number sample_video 1) Graphs.cleared 1
           (sample_entry 2 (38 / 100))).
  - reflexivity.
  - reflexivity.
  - reflexivity.
  - cbn [info_droplet_speed sample_entry]. lra.
Defined.

End Instances.
